(** * zod-extend: [createExtendZod] over a model of ordinary JavaScript objects

    The repository is one function, [createExtendZod], whose inner function
    [extendZod] is made of five object operations:

      const extendedZ = Object.create(Object.getPrototypeOf(z));
      Object.assign(extendedZ, z);
      for (const [key, value] of Object.entries(extensions)) {
        extendedZ[key] = value;
      }
      Object.freeze(extendedZ);

    Every one of them is defined by the internal methods of ordinary
    objects in ECMAScript ([[GetPrototypeOf]], [[GetOwnProperty]], [[Get]],
    [[Set]], [[DefineOwnProperty]], [[PreventExtensions]]).  The embedding
    below is therefore a heap of ordinary objects, each with a prototype
    link, an extensibility flag and own properties carrying their
    attributes, and the five operations on it, with the heap passed
    explicitly.  The module is strict code, so a [[Set]] that returns false
    throws a TypeError.

    [[Get]] and [[Set]] run user code when they reach an accessor
    property.  A user function is an index into a table of the realm,
    [user_call], whose entries are arbitrary heap transformers: a getter or
    setter may read and write any object it likes, its receiver included,
    allocate, and throw.  The table is bound by one law of the language
    only: a frozen ordinary object never changes.  Statements that need
    more than that say so in their hypotheses.

    Scope of the model.  Objects are ordinary objects (no proxies, arrays
    or other exotic objects), and the built-ins the code calls
    ([Object.create], [Object.assign], [Object.entries], [Object.freeze],
    array destructuring) are the initial ones.  A value is undefined,
    null, a number, a string or a reference; booleans are left out.
    Schema constructors are opaque function objects, which this code
    stores and never calls. *)

From Stdlib Require Import ZArith NArith String Ascii Bool Lia DecimalString.
From stdpp Require Import base list.

Local Open Scope list_scope.

(** ** Values, keys and property descriptors *)

Abbreviation loc := nat (only parsing).

(** Language values.  Functions are objects, so a schema constructor is a
    [VRef]. *)
Inductive value :=
| VUndef
| VNull
| VNum (n : Z)
| VStr (s : string)
| VRef (l : loc).

(** Property keys: strings and symbols. *)
Inductive key :=
| KStr (s : string)
| KSym (id : nat).

Definition key_eqb (a b : key) : bool :=
  match a, b with
  | KStr s, KStr t => String.eqb s t
  | KSym i, KSym j => Nat.eqb i j
  | _, _ => false
  end.

Definition is_string_key (k : key) : bool :=
  match k with KStr _ => true | KSym _ => false end.

(** The functions that can sit in an accessor property.  [ProtoGetter] and
    [ProtoSetter] are the built-in pair of [Object.prototype.__proto__];
    [UserFn id] is user code, entry [id] of the realm's [user_call]. *)
Inductive accessor_fn :=
| ProtoGetter
| ProtoSetter
| UserFn (id : nat).

Inductive prop :=
| Data (v : value) (writable enumerable configurable : bool)
| Accessor (get set : option accessor_fn) (enumerable configurable : bool).

Definition enumerable_of (d : prop) : bool :=
  match d with
  | Data _ _ e _ => e
  | Accessor _ _ e _ => e
  end.

(** What calling an object does.  [ExtendZodClosure extensions] is the
    inner function [extendZod] of [createExtendZod], closed over the
    REFERENCE [extensions]; [Opaque] is any other function (a schema
    constructor), which this code never calls. *)
Inductive callable :=
| NotCallable
| Opaque
| ExtendZodClosure (extensions : value).

(** An ordinary object: [[Prototype]], [[Extensible]], its own properties
    in creation order, and its [[Call]] behaviour.  The property of a key
    is the first binding of that key in [props]. *)
Record object := Obj {
  proto : value;
  extensible : bool;
  props : list (key * prop);
  call : callable
}.

Abbreviation heap := (list object) (only parsing).

(** ** Completions *)

(** The operation that raised a TypeError.  [OwnArgumentCheck] stands for a
    [throw] statement of [extendZod] itself; the source has none. *)
Inductive origin :=
| InGetPrototypeOf
| InObjectCreate
| InObjectEntries
| InSet (k : key)
| InProtoSetter
| InCall
| OwnArgumentCheck.

(** A TypeError of a built-in operation, or whatever user code threw. *)
Inductive error :=
| TypeError (raised_by : origin)
| UserThrow (v : value).

(** [Stuck] is for what ordinary JavaScript heaps exclude: a dangling
    reference or a cyclic prototype chain. *)
Inductive outcome (A : Type) :=
| Normal (a : A) (h : heap)
| Throw (e : error) (h : heap)
| Stuck.
Arguments Normal {A} a h.
Arguments Throw {A} e h.
Arguments Stuck {A}.

Definition M (A : Type) := heap -> outcome A.

Definition ret {A} (a : A) : M A := fun h => Normal a h.
Definition bind {A B} (m : M A) (f : A -> M B) : M B :=
  fun h => match m h with
           | Normal a h' => f a h'
           | Throw e h' => Throw e h'
           | Stuck => Stuck
           end.

Notation "'letM' x ':=' m 'in' f" := (bind m (fun x => f))
  (at level 10, x name, m at level 100, f at level 200).
Notation "'doM' m 'in' f" := (bind m (fun _ => f))
  (at level 10, m at level 100, f at level 200).

(** The heap an outcome leaves, when there is one. *)
Definition heap_of {A} (o : outcome A) : option heap :=
  match o with
  | Normal _ h => Some h
  | Throw _ h => Some h
  | Stuck => None
  end.

(** ** Own properties *)

Fixpoint lookup_key (k : key) (ps : list (key * prop)) : option prop :=
  match ps with
  | [] => None
  | (k', d) :: ps' => if key_eqb k k' then Some d else lookup_key k ps'
  end.

(** [[GetOwnProperty]]. *)
Definition own_prop (o : object) (k : key) : option prop :=
  lookup_key k (props o).

(** Replace the first binding of [k]; the key keeps its position. *)
Fixpoint replace_key (k : key) (d : prop) (ps : list (key * prop))
  : list (key * prop) :=
  match ps with
  | [] => []
  | (k', d') :: ps' =>
      if key_eqb k k' then (k', d) :: ps' else (k', d') :: replace_key k d ps'
  end.

Definition set_props (o : object) (ps : list (key * prop)) : object :=
  Obj (proto o) (extensible o) ps (call o).

Definition set_proto (o : object) (v : value) : object :=
  Obj v (extensible o) (props o) (call o).

Definition value_eqb (a b : value) : bool :=
  match a, b with
  | VUndef, VUndef => true
  | VNull, VNull => true
  | VNum n, VNum m => Z.eqb n m
  | VStr s, VStr t => String.eqb s t
  | VRef l, VRef m => Nat.eqb l m
  | _, _ => false
  end.

(** A string key that is an array index: the canonical decimal form of an
    integer below 2^32 - 1. *)
Definition array_index (s : string) : option N :=
  match s with
  | EmptyString => None
  | String c rest =>
      if Ascii.eqb c "0"%char && negb (String.eqb rest EmptyString) then None
      else match NilEmpty.uint_of_string s with
           | Some u =>
               if (N.of_uint u <? 4294967295)%N then Some (N.of_uint u) else None
           | None => None
           end
  end.

Definition index_of (k : key) : option N :=
  match k with
  | KStr s => array_index s
  | KSym _ => None
  end.

Fixpoint index_keys (ks : list key) : list (N * key) :=
  match ks with
  | [] => []
  | k :: ks' =>
      match index_of k with
      | Some n => (n, k) :: index_keys ks'
      | None => index_keys ks'
      end
  end.

Fixpoint insert_index (x : N * key) (l : list (N * key)) : list (N * key) :=
  match l with
  | [] => [x]
  | y :: l' =>
      if (fst x <? fst y)%N then x :: y :: l' else y :: insert_index x l'
  end.

Fixpoint sort_index (l : list (N * key)) : list (N * key) :=
  match l with
  | [] => []
  | x :: l' => insert_index x (sort_index l')
  end.

Definition is_plain_string_key (k : key) : bool :=
  match k with
  | KStr s => match array_index s with Some _ => false | None => true end
  | KSym _ => false
  end.

(** [[OwnPropertyKeys]] (OrdinaryOwnPropertyKeys): array indices in
    ascending order, then the other string keys in creation order, then the
    symbol keys in creation order. *)
Definition own_keys (o : object) : list key :=
  map snd (sort_index (index_keys (map fst (props o))))
  ++ filter (fun k => is_plain_string_key k = true) (map fst (props o))
  ++ filter (fun k => is_string_key k = false) (map fst (props o)).

(** SetIntegrityLevel "frozen" and TestIntegrityLevel "frozen". *)
Definition freeze_prop (d : prop) : prop :=
  match d with
  | Data v _ e _ => Data v false e false
  | Accessor g s e _ => Accessor g s e false
  end.

Definition freeze_object (o : object) : object :=
  Obj (proto o) false (map (fun kd => (fst kd, freeze_prop (snd kd))) (props o))
      (call o).

Definition is_frozen (o : object) : bool :=
  negb (extensible o)
  && forallb (fun kd => match snd kd with
                        | Data _ w _ c => negb w && negb c
                        | Accessor _ _ _ c => negb c
                        end) (props o).

(** ** The realm *)

(** The intrinsics the code reaches, the identity of the imported symbol,
    and the user code of the program.  [user_call id this args] runs user
    function [id]; a getter is called without arguments, a setter with the
    assigned value.  [user_call_frozen] is the law of the language that
    user code cannot escape: an object that is frozen stays as it is. *)
Record realm := Realm {
  ObjectPrototype : loc;
  FunctionPrototype : loc;
  NumberPrototype : loc;
  StringPrototype : loc;
  entries_symbol : nat;
  user_call : nat -> value -> list value -> M value;
  user_call_frozen :
    forall id this args (h h' : heap) l o,
      heap_of (user_call id this args h) = Some h' ->
      h !! l = Some o -> is_frozen o = true -> h' !! l = Some o
}.

(** Modelled from the spec: [OBJECT_EXTEND_FUNCTION_ENTRIES] is imported
    from the package universal-symbols, which is not part of the
    repository; the spec calls it a single well-known shared key that is
    not a plain string, so it is a symbol, of unknown identity. *)
Definition OBJECT_EXTEND_FUNCTION_ENTRIES (r : realm) : key :=
  KSym (entries_symbol r).

(** ** Internal methods of ordinary objects *)

(** Result of walking a prototype chain for a key. *)
Inductive found :=
| Found (d : prop)
| Absent
| Broken.

(** The walk of OrdinaryGet and OrdinarySet: the first object on the chain
    starting at [v] that has [k] as an own property.  [fuel] bounds the
    number of objects visited; the callers pass the size of the heap, which
    an acyclic chain cannot exceed. *)
Fixpoint find_prop (fuel : nat) (h : heap) (v : value) (k : key) : found :=
  match v with
  | VNull => Absent
  | VRef l =>
      match fuel with
      | O => Broken
      | S fuel' =>
          match h !! l with
          | None => Broken
          | Some o =>
              match own_prop o k with
              | Some d => Found d
              | None => find_prop fuel' h (proto o) k
              end
          end
      end
  | VUndef | VNum _ | VStr _ => Broken
  end.

(** Calling a getter with [this = VRef l].  The [__proto__] getter returns
    the receiver's [[Prototype]]; the [__proto__] setter called without an
    argument returns undefined. *)
Definition call_getter (r : realm) (g : accessor_fn) (l : loc) : M value :=
  match g with
  | ProtoGetter => fun h =>
      match h !! l with
      | Some o => Normal (proto o) h
      | None => Stuck
      end
  | ProtoSetter => ret VUndef
  | UserFn id => user_call r id (VRef l) []
  end.

(** [[Get]] with the object itself as receiver: [obj[k]]. *)
Definition get (r : realm) (l : loc) (k : key) : M value := fun h =>
  match find_prop (length h) h (VRef l) k with
  | Found (Data v _ _ _) => Normal v h
  | Found (Accessor (Some g) _ _ _) => call_getter r g l h
  | Found (Accessor None _ _ _) => Normal VUndef h
  | Absent => Normal VUndef h
  | Broken => Stuck
  end.

(** The loop of OrdinarySetPrototypeOf that refuses a cyclic chain: does
    the chain starting at [v] pass through [l]? *)
Fixpoint reaches (fuel : nat) (h : heap) (v : value) (l : loc) : option bool :=
  match v with
  | VNull => Some false
  | VRef p =>
      if Nat.eqb p l then Some true
      else match fuel with
           | O => None
           | S fuel' =>
               match h !! p with
               | None => None
               | Some o => reaches fuel' h (proto o) l
               end
           end
  | VUndef | VNum _ | VStr _ => None
  end.

(** [[SetPrototypeOf]] called by the [__proto__] setter, which throws when
    it returns false. *)
Definition set_prototype_of (l : loc) (v : value) : M unit := fun h =>
  match h !! l with
  | None => Stuck
  | Some o =>
      if value_eqb v (proto o) then Normal tt h
      else if negb (extensible o) then Throw (TypeError InProtoSetter) h
      else match reaches (length h) h v l with
           | None => Stuck
           | Some true => Throw (TypeError InProtoSetter) h
           | Some false => Normal tt (<[l := set_proto o v]> h)
           end
  end.

(** Calling a setter with [this = VRef l] and argument [v]; what the
    function returns is dropped.  The [__proto__] setter ignores a value
    that is neither an object nor null. *)
Definition call_setter (r : realm) (s : accessor_fn) (l : loc) (v : value)
  : M unit :=
  match s with
  | ProtoSetter =>
      match v with
      | VRef _ | VNull => set_prototype_of l v
      | VUndef | VNum _ | VStr _ => ret tt
      end
  | ProtoGetter => ret tt
  | UserFn id => doM user_call r id (VRef l) [v] in ret tt
  end.

(** [obj[k] = v] in strict code: [[Set]] with the object as receiver, and a
    TypeError when it returns false. *)
Definition ordinary_set (r : realm) (l : loc) (k : key) (v : value)
  : M unit := fun h =>
  match h !! l with
  | None => Stuck
  | Some o =>
      match find_prop (length h) h (VRef l) k with
      | Broken => Stuck
      | Found (Accessor _ None _ _) => Throw (TypeError (InSet k)) h
      | Found (Accessor _ (Some s) _ _) => call_setter r s l v h
      | Found (Data _ false _ _) => Throw (TypeError (InSet k)) h
      | Found (Data _ true _ _) | Absent =>
          match own_prop o k with
          | Some (Accessor _ _ _ _) => Throw (TypeError (InSet k)) h
          | Some (Data _ false _ _) => Throw (TypeError (InSet k)) h
          | Some (Data _ true e c) =>
              Normal tt
                (<[l := set_props o (replace_key k (Data v true e c) (props o))]> h)
          | None =>
              if extensible o
              then Normal tt
                     (<[l := set_props o (props o ++ [(k, Data v true true true)])]> h)
              else Throw (TypeError (InSet k)) h
          end
      end
  end.

(** [for (const [key, value] of entries) extendedZ[key] = value]. *)
Fixpoint overlay (r : realm) (target : loc) (es : list (key * value))
  : M unit :=
  match es with
  | [] => ret tt
  | (k, v) :: es' => doM ordinary_set r target k v in overlay r target es'
  end.

(** The loop of [Object.assign(target, source)] over the keys of the
    source: at each key the source is asked for its own property, and an
    enumerable one is read with [[Get]] and written with a throwing
    [[Set]]. *)
Fixpoint assign_keys (r : realm) (target source : loc) (ks : list key)
  : M unit :=
  match ks with
  | [] => ret tt
  | k :: ks' => fun h =>
      match h !! source with
      | None => Stuck
      | Some o =>
          match own_prop o k with
          | Some d =>
              if enumerable_of d
              then (letM v := get r source k in
                    doM ordinary_set r target k v in
                    assign_keys r target source ks') h
              else assign_keys r target source ks' h
          | None => assign_keys r target source ks' h
          end
      end
  end.

(** The own enumerable properties of the wrapper object of a string: one
    per code unit, under the array indices from [i] on. *)
Fixpoint string_chars (i : N) (s : string) : list (key * value) :=
  match s with
  | EmptyString => []
  | String c s' =>
      (KStr (NilEmpty.string_of_uint (N.to_uint i)), VStr (String c EmptyString))
      :: string_chars (N.succ i) s'
  end.

(** [Object.assign(target, source)].  A null or undefined source is
    skipped; a number is wrapped in an object without own properties, a
    string in one whose enumerable own properties are its code units. *)
Definition object_assign (r : realm) (target : loc) (source : value)
  : M unit :=
  match source with
  | VUndef | VNull | VNum _ => ret tt
  | VStr s => overlay r target (string_chars 0 s)
  | VRef s => fun h =>
      match h !! s with
      | None => Stuck
      | Some o => assign_keys r target s (own_keys o) h
      end
  end.

(** The loop of [Object.entries]: at each STRING key the object is asked
    for its own property, and an enumerable one is read with [[Get]]. *)
Fixpoint entries_of (r : realm) (l : loc) (ks : list key)
  : M (list (key * value)) :=
  match ks with
  | [] => ret []
  | k :: ks' => fun h =>
      match h !! l with
      | None => Stuck
      | Some o =>
          match own_prop o k with
          | Some d =>
              if is_string_key k && enumerable_of d
              then (letM v := get r l k in
                    letM es := entries_of r l ks' in
                    ret ((k, v) :: es)) h
              else entries_of r l ks' h
          | None => entries_of r l ks' h
          end
      end
  end.

(** [Object.entries(v)].  The arrays it allocates are not kept in the heap:
    the loop of [extendZod] destructures them at once. *)
Definition object_entries (r : realm) (v : value) : M (list (key * value)) :=
  match v with
  | VUndef | VNull => fun h => Throw (TypeError InObjectEntries) h
  | VNum _ => ret []
  | VStr s => ret (string_chars 0 s)
  | VRef l => fun h =>
      match h !! l with
      | None => Stuck
      | Some o => entries_of r l (own_keys o) h
      end
  end.

(** [Object.freeze(v)]: SetIntegrityLevel "frozen" on an ordinary object,
    which cannot fail; a non-object is returned as it is. *)
Definition object_freeze (v : value) : M value := fun h =>
  match v with
  | VRef l =>
      match h !! l with
      | None => Stuck
      | Some o => Normal v (<[l := freeze_object o]> h)
      end
  | _ => Normal v h
  end.

(** [Object.create(proto)] with one argument. *)
Definition object_create (p : value) : M loc := fun h =>
  match p with
  | VRef _ | VNull => Normal (length h) (h ++ [Obj p true [] NotCallable])
  | VUndef | VNum _ | VStr _ => Throw (TypeError InObjectCreate) h
  end.

(** [Object.getPrototypeOf(v)]: ToObject, then [[GetPrototypeOf]]. *)
Definition get_prototype_of (r : realm) (v : value) : M value := fun h =>
  match v with
  | VUndef | VNull => Throw (TypeError InGetPrototypeOf) h
  | VNum _ => Normal (VRef (NumberPrototype r)) h
  | VStr _ => Normal (VRef (StringPrototype r)) h
  | VRef l =>
      match h !! l with
      | None => Stuck
      | Some o => Normal (proto o) h
      end
  end.

(** ** The repository *)

(** The inner function [extendZod(z)], closed over [extensions].  Its body
    is the same in src/index.ts (lines 24-31) and in the later revision
    with the metadata attachment (lines 31-39). *)
Definition extendZod (r : realm) (extensions z : value) : M value :=
  letM p := get_prototype_of r z in
  letM extendedZ := object_create p in
  doM object_assign r extendedZ z in
  letM es := object_entries r extensions in
  doM overlay r extendedZ es in
  object_freeze (VRef extendedZ).

(** The two objects that evaluating the function expression
    [function extendZod(z) {...}] allocates, the function at [f]: the
    function object, with its own properties [length], [name] and
    [prototype], and the object its [prototype] property refers to. *)
Definition function_objects (r : realm) (c : callable) (f : loc)
  : list object :=
  [Obj (VRef (FunctionPrototype r)) true
     [(KStr "length", Data (VNum 1) false false true);
      (KStr "name", Data (VStr "extendZod") false false true);
      (KStr "prototype", Data (VRef (S f)) true false false)]
     c;
   Obj (VRef (ObjectPrototype r)) true
     [(KStr "constructor", Data (VRef f) true false true)]
     NotCallable].

Definition new_function (r : realm) (c : callable) : M loc := fun h =>
  Normal (length h) (h ++ function_objects r c (length h)).

(** [f(arg)]. *)
Definition call_function (r : realm) (f arg : value) : M value := fun h =>
  match f with
  | VRef l =>
      match h !! l with
      | None => Stuck
      | Some o =>
          match call o with
          | ExtendZodClosure extensions => extendZod r extensions arg h
          | Opaque => Stuck
          | NotCallable => Throw (TypeError InCall) h
          end
      end
  | _ => Throw (TypeError InCall) h
  end.

(** src/index.ts. *)
Module Index.

Definition createExtendZod (r : realm) (extensions : value) : M value :=
  letM f := new_function r (ExtendZodClosure extensions) in
  ret (VRef f).

End Index.

(** The revision of index.ts that attaches the extension map to the
    function it returns (src/unnamed/part_000, line 40). *)
Module Meta.

Definition createExtendZod (r : realm) (extensions : value) : M value :=
  letM f := new_function r (ExtendZodClosure extensions) in
  doM ordinary_set r f (OBJECT_EXTEND_FUNCTION_ENTRIES r) extensions in
  ret (VRef f).

End Meta.


(** ** Specification vocabulary *)

(** Own property [k] and prototype of the object at [l]. *)
Definition own_at (h : heap) (l : loc) (k : key) : option prop :=
  match h !! l with
  | Some o => own_prop o k
  | None => None
  end.

Definition proto_at (h : heap) (l : loc) : option value :=
  match h !! l with
  | Some o => Some (proto o)
  | None => None
  end.

(** [f] is a function produced by [createExtendZod(extensions)]. *)
Definition is_apply_fn (h : heap) (f : loc) (extensions : value) : Prop :=
  exists fo, h !! f = Some fo /\ call fo = ExtendZodClosure extensions.

(** The value [Object.assign] copies under [k], when [k] is an own
    enumerable DATA property of the base [so]. *)
Definition copy_value (so : object) (k : key) : option value :=
  match own_prop so k with
  | Some (Data v _ true _) => Some v
  | _ => None
  end.

(** The value the overlay loop writes under [k], when [k] is an own
    enumerable string-keyed DATA property of the extension map [eo]. *)
Definition overlay_value (eo : object) (k : key) : option value :=
  if is_string_key k then copy_value eo k else None.

(** The own property an overlay over a copy, then frozen, has under [k]. *)
Definition layered (so eo : object) (k : key) : option prop :=
  match overlay_value eo k with
  | Some v => Some (Data v false true false)
  | None =>
      match copy_value so k with
      | Some v => Some (Data v false true false)
      | None => None
      end
  end.

(** The overlay loop writes key [k] of the extension map [eo]: [k] is an
    own enumerable string key. *)
Definition overlaid (eo : object) (k : key) : Prop :=
  is_string_key k = true /\
  exists d, own_prop eo k = Some d /\ enumerable_of d = true.

(** Key [k] is written while [extendZod] builds its result: it is copied
    from the base [so] or overlaid from the extension map [eo]. *)
Definition written (so eo : object) (k : key) : Prop :=
  overlaid eo k \/ exists d, own_prop so k = Some d /\ enumerable_of d = true.

(** The own enumerable properties of [o] (the string-keyed ones only, with
    [strings_only]) are data properties: reading them runs no getter. *)
Definition data_only (strings_only : bool) (o : object) : Prop :=
  forall k d,
    own_prop o k = Some d -> enumerable_of d = true ->
    (strings_only = true -> is_string_key k = true) ->
    exists v w c, d = Data v w true c.

(** The prototype chain starting at [p] lets an assignment of [k] through
    to the receiver: the walk ends without finding [k], or finds a
    writable data property; it meets no accessor and no read-only
    property. *)
Definition chain_lets (h : heap) (p : value) (k : key) : Prop :=
  find_prop (length h) h p k = Absent
  \/ exists v e c, find_prop (length h) h p k = Found (Data v true e c).

(** A call [applyFn(base)] on base [so] and extension map [eo] that runs no
    user code and meets no refusal: the properties it reads are data
    properties, and every key it writes is let through by the prototype
    chain of the base. *)
Record quiet (h : heap) (so eo : object) : Prop := {
  quiet_proto : proto so = VNull \/ exists p, proto so = VRef p;
  quiet_base : data_only false so;
  quiet_map : data_only true eo;
  quiet_chain : forall k, written so eo k -> chain_lets h (proto so) k
}.

(** The prototype chain starting at [p] refuses an assignment of [k]: the
    walk finds a read-only data property, or an accessor without a
    setter. *)
Definition refused (h : heap) (p : value) (k : key) : Prop :=
  (exists v e c, find_prop (length h) h p k = Found (Data v false e c))
  \/ (exists g e c, find_prop (length h) h p k = Found (Accessor g None e c)).

(** A call that runs no user code, but may meet a refusal: as [quiet],
    with keys the chain refuses allowed. *)
Record calm (h : heap) (so eo : object) : Prop := {
  calm_proto : proto so = VNull \/ exists p, proto so = VRef p;
  calm_base : data_only false so;
  calm_map : data_only true eo;
  calm_chain : forall k, written so eo k ->
               chain_lets h (proto so) k \/ refused h (proto so) k
}.

(** Assigning [k] on the object at [l] would reach an inherited or own
    accessor with a setter. *)
Definition reaches_setter (h : heap) (l : loc) (k : key) : Prop :=
  exists g s e c,
    find_prop (length h) h (VRef l) k = Found (Accessor g (Some s) e c).


(** Heap [h'] keeps every object of [h] that [P] protects as it is; a
    computation is [keeping] when every heap it leaves does. *)
Definition keeps (P : loc -> object -> Prop) (h h' : heap) : Prop :=
  forall l o, h !! l = Some o -> P l o -> h' !! l = Some o.

Definition keeping {A} (P : loc -> object -> Prop) (m : M A) : Prop :=
  forall h h', heap_of (m h) = Some h' -> keeps P h h'.

(** Heap [h'] keeps every frozen object of [h] as it is. *)
Definition keeps_frozen (h h' : heap) : Prop :=
  forall l o, h !! l = Some o -> is_frozen o = true -> h' !! l = Some o.

(** Heap [h'] keeps every object of [h] as it is. *)
Definition keeps_objects (h h' : heap) : Prop :=
  forall l o, h !! l = Some o -> h' !! l = Some o.

(** An error raised by a check of the function's own, as opposed to a fault
    of a built-in operation or of user code. *)
Definition is_argument_error (e : error) : bool :=
  match e with
  | TypeError OwnArgumentCheck => true
  | TypeError _ => false
  | UserThrow _ => false
  end.

(** *** The state between [Object.create] and [Object.freeze] *)

(** A freshly built object before it is frozen: extensible, and all its
    properties created by assignment. *)
Definition assigned_only (o : object) : Prop :=
  extensible o = true /\
  forall k d, own_prop o k = Some d -> exists v, d = Data v true true true.

(** The state of a call that runs no user code, between [Object.create]
    and [Object.freeze]: [t] is the new object, everything older is as in
    [h0]. *)
Record under_construction (h0 : heap) (t : loc) (h : heap) : Prop := {
  uc_target : t = length h0;
  uc_length : length h = S (length h0);
  uc_old : forall l, l < t -> h !! l = h0 !! l;
  uc_new : exists o, h !! t = Some o /\ assigned_only o
}.

(** The object under construction at [t] owns no key that the chain
    starting at [p] refuses. *)
Definition refused_unowned (h0 : heap) (p : value) (t : loc) (h : heap) : Prop :=
  forall k, refused h0 p k -> own_at h t k = None.

(** The writes a loop performs for the keys [ks], [value_of] giving the
    value written under a key. *)
Fixpoint pairs_of (value_of : key -> option value) (ks : list key)
  : list (key * value) :=
  match ks with
  | [] => []
  | k :: ks' =>
      match value_of k with
      | Some v => (k, v) :: pairs_of value_of ks'
      | None => pairs_of value_of ks'
      end
  end.

(** *** Boolean forms, for checking a concrete heap by evaluation *)

Definition chain_letsb (h : heap) (p : value) (k : key) : bool :=
  match find_prop (length h) h p k with
  | Absent => true
  | Found (Data _ w _ _) => w
  | Found (Accessor _ _ _ _) => false
  | Broken => false
  end.

Definition refusedb (h : heap) (p : value) (k : key) : bool :=
  match find_prop (length h) h p k with
  | Found (Data _ false _ _) => true
  | Found (Accessor _ None _ _) => true
  | _ => false
  end.

Definition is_object_or_null (v : value) : bool :=
  match v with
  | VRef _ | VNull => true
  | _ => false
  end.

(** Every enumerable binding of the property list is a data property. *)
Definition data_onlyb (o : object) : bool :=
  forallb (fun kd => match snd kd with
                     | Data _ _ _ _ => true
                     | Accessor _ _ e _ => negb e
                     end) (props o).

Definition quietb (h : heap) (so eo : object) : bool :=
  is_object_or_null (proto so)
  && data_onlyb so && data_onlyb eo
  && forallb (chain_letsb h (proto so)) (map fst (props so) ++ map fst (props eo)).

Definition calmb (h : heap) (so eo : object) : bool :=
  is_object_or_null (proto so)
  && data_onlyb so && data_onlyb eo
  && forallb (fun k => chain_letsb h (proto so) k || refusedb h (proto so) k)
       (map fst (props so) ++ map fst (props eo)).

(** ** Concrete heaps *)

Module Sample.

(** User code without effects: every function is [function () {}]. *)
Definition noop_user : nat -> value -> list value -> M value :=
  fun _ _ _ h => Normal VUndef h.

(** The realm of most heaps below: [Object.prototype] at 0,
    [Function.prototype] at 1, [Number.prototype] at 2, [String.prototype]
    at 3. *)
Definition rlm : realm.
Proof.
  refine (Realm 0 1 2 3 0 noop_user _).
  intros id this args h h' l o H Hl _. simpl in H. congruence.
Defined.




(** A schema constructor. *)
Definition fn : object := Obj (VRef 1) true [] Opaque.

Definition field (v : value) : prop := Data v true true true.

(** [Object.prototype] with its [__proto__] accessor, and the other
    intrinsics. *)
Definition ObjectProto : object :=
  Obj VNull true
    [(KStr "__proto__", Accessor (Some ProtoGetter) (Some ProtoSetter) false true)]
    NotCallable.
Definition FunctionProto : object := Obj (VRef 0) true [] Opaque.
Definition NumberProto : object := Obj (VRef 0) true [] NotCallable.
Definition StringProto : object := Obj (VRef 0) true [] NotCallable.

Definition intrinsics : list object :=
  [ObjectProto; FunctionProto; NumberProto; StringProto].

(** The objects of [applyFn = createExtendZod(E)], [E] at [e], allocated
    at [f] and [f + 1]. *)
Definition apply_fn (e f : nat) : list object :=
  function_objects rlm (ExtendZodClosure (VRef e)) f.

(** [base = { string: fnA, number: fnB }] and [E = { custom: fnC }]:
    4, 5, 6 are fnA, fnB, fnC; 7 is base; 8 is E. *)
Definition base_obj : object :=
  Obj (VRef 0) true
    [(KStr "string", field (VRef 4)); (KStr "number", field (VRef 5))]
    NotCallable.

Definition ext_obj : object :=
  Obj (VRef 0) true [(KStr "custom", field (VRef 6))] NotCallable.

Definition before_create : list object :=
  intrinsics ++ [fn; fn; fn; base_obj; ext_obj].

(** The same with [applyFn = createExtendZod(E)] at 9. *)
Definition plain : list object := before_create ++ apply_fn 8 9.



(** [class B { set custom(_) {} }], [base = new B()] with an own
    [number: fnB], [E = { custom: fnC }]; the setter is user function 0:
    4 is fnB; 5 is fnC; 6 is B.prototype; 7 is base; 8 is E; 9 is applyFn. *)
Definition setter_proto : object :=
  Obj (VRef 0) true
    [(KStr "custom", Accessor None (Some (UserFn 0)) false true)]
    NotCallable.

Definition setter_base : object :=
  Obj (VRef 6) true [(KStr "number", field (VRef 4))] NotCallable.

Definition setter_ext : object :=
  Obj (VRef 0) true [(KStr "custom", field (VRef 5))] NotCallable.

Definition with_setter : list object :=
  intrinsics ++ [fn; fn; setter_proto; setter_base; setter_ext] ++ apply_fn 8 9.

(** The same before [createExtendZod(E)] is called, with [E = {}]. *)
Definition empty_ext : object := Obj (VRef 0) true [] NotCallable.




(** [base = { custom: fnA, number: fnB }], [E = { custom: fnC }]:
    4, 5, 6 are fnA, fnB, fnC; 7 is base; 8 is E; 9 is applyFn. *)
Definition collision_base : object :=
  Obj (VRef 0) true
    [(KStr "custom", field (VRef 4)); (KStr "number", field (VRef 5))]
    NotCallable.

Definition collision : list object :=
  intrinsics ++ [fn; fn; fn; collision_base; ext_obj] ++ apply_fn 8 9.

(** [base = { string: fnC }], [E = { ["__proto__"]: fnC }] (an own
    property, as a computed key or [JSON.parse] makes it):
    4 is fnC; 5 is base; 6 is E; 7 is applyFn. *)
Definition proto_key_extension : list object :=
  intrinsics ++
  [fn;
   Obj (VRef 0) true [(KStr "string", field (VRef 4))] NotCallable;
   Obj (VRef 0) true [(KStr "__proto__", field (VRef 4))] NotCallable]
  ++ apply_fn 6 7.







(** [class Lib { parse() {} }], [base = new Lib()] with an own
    [string: fnB], [E = { custom: fnC }]:
    4, 5, 6 are parse, fnB, fnC; 7 is Lib.prototype; 8 is base; 9 is E;
    10 is applyFn. *)
Definition method_base : object :=
  Obj (VRef 7) true [(KStr "string", field (VRef 5))] NotCallable.

Definition with_method : list object :=
  intrinsics ++
  [fn; fn; fn;
   Obj (VRef 0) true [(KStr "parse", Data (VRef 4) true false true)] NotCallable;
   method_base; ext_obj]
  ++ apply_fn 9 10.

(** [base] with a hidden member:
    [Object.defineProperty(base, "secret", { value: fnB, enumerable: false })]
    beside [string: fnA]; [E = { custom: fnC }]:
    4, 5, 6 are fnA, fnB, fnC; 7 is base; 8 is E; 9 is applyFn. *)
Definition hidden_base : object :=
  Obj (VRef 0) true
    [(KStr "string", field (VRef 4));
     (KStr "secret", Data (VRef 5) false false false)]
    NotCallable.

Definition with_hidden : list object :=
  intrinsics ++ [fn; fn; fn; hidden_base; ext_obj] ++ apply_fn 8 9.

(** [createExtendZod({})] on [base = { string: fnA, number: fnB }]:
    4, 5, 6 are fnA, fnB, fnC; 7 is base; 8 is the empty map; 9 is
    applyFn. *)
Definition with_empty_map : list object :=
  intrinsics ++ [fn; fn; fn; base_obj; empty_ext] ++ apply_fn 8 9.



(** [P = Object.freeze({ custom: fnA })], [base = Object.create(P)] with an
    own [string: fnB], [E = { custom: fnC }]:
    4, 5, 6 are fnA, fnB, fnC; 7 is P; 8 is base; 9 is E; 10 is applyFn. *)
Definition frozen_proto_base : object :=
  Obj (VRef 7) true [(KStr "string", field (VRef 5))] NotCallable.

Definition read_only_proto : list object :=
  intrinsics ++
  [fn; fn; fn;
   Obj (VRef 0) false [(KStr "custom", Data (VRef 4) false true false)]
     NotCallable;
   frozen_proto_base; ext_obj]
  ++ apply_fn 9 10.

(** Two packages extending the same instance: [base = { string: fnA }],
    [E1 = { custom: fnB, currency: fnC }], [E2 = { custom: fnC, email: fnA }]:
    4, 5, 6 are fnA, fnB, fnC; 7 is base; 8 is E1; 9 is E2;
    10 is [createExtendZod(E1)]; 12 is [createExtendZod(E2)]. *)
Definition small_base : object :=
  Obj (VRef 0) true [(KStr "string", field (VRef 4))] NotCallable.

Definition first_ext : object :=
  Obj (VRef 0) true
    [(KStr "custom", field (VRef 5)); (KStr "currency", field (VRef 6))]
    NotCallable.

Definition second_ext : object :=
  Obj (VRef 0) true
    [(KStr "custom", field (VRef 6)); (KStr "email", field (VRef 4))]
    NotCallable.

Definition two_extenders : list object :=
  intrinsics ++ [fn; fn; fn; small_base; first_ext; second_ext]
  ++ apply_fn 8 10 ++ apply_fn 9 12.

End Sample.

(** ** Keys and property lists *)

Lemma key_eqb_eq (a b : key) : key_eqb a b = true <-> a = b.
Proof.
  destruct a as [s|i], b as [t|j]; simpl;
    rewrite ?String.eqb_eq, ?Nat.eqb_eq; split; congruence.
Qed.

Lemma key_eqb_refl (a : key) : key_eqb a a = true.
Proof. by apply key_eqb_eq. Qed.

Lemma key_eqb_neq (a b : key) : key_eqb a b = false <-> a <> b.
Proof.
  rewrite <- key_eqb_eq. destruct (key_eqb a b); split; congruence.
Qed.

Lemma key_eq_dec (a b : key) : {a = b} + {a <> b}.
Proof.
  destruct (key_eqb a b) eqn:E.
  - left. by apply key_eqb_eq.
  - right. by apply key_eqb_neq.
Defined.

Lemma lookup_key_app k ps k' d :
  lookup_key k (ps ++ [(k', d)]) =
  match lookup_key k ps with
  | Some x => Some x
  | None => if key_eqb k k' then Some d else None
  end.
Proof.
  induction ps as [|[k1 d1] ps IH]; simpl; [done|].
  destruct (key_eqb k k1); [done|apply IH].
Qed.

Lemma lookup_key_replace k d ps k' :
  lookup_key k' (replace_key k d ps) =
  if key_eqb k' k
  then match lookup_key k ps with Some _ => Some d | None => None end
  else lookup_key k' ps.
Proof.
  induction ps as [|[k1 d1] ps IH]; simpl.
  - by destruct (key_eqb k' k).
  - destruct (key_eqb k k1) eqn:E1; simpl.
    + apply key_eqb_eq in E1; subst k1.
      destruct (key_eqb k' k); done.
    + rewrite IH. destruct (key_eqb k' k) eqn:E2; [|done].
      apply key_eqb_eq in E2; subst k'. by rewrite E1.
Qed.

Lemma lookup_key_Some_in k ps d :
  lookup_key k ps = Some d -> In k (map fst ps).
Proof.
  induction ps as [|[k1 d1] ps IH]; simpl; [done|].
  destruct (key_eqb k k1) eqn:E.
  - apply key_eqb_eq in E. auto.
  - auto.
Qed.

Lemma lookup_key_in k ps d : lookup_key k ps = Some d -> In (k, d) ps.
Proof.
  induction ps as [|[k1 d1] ps IH]; simpl; [done|].
  destruct (key_eqb k k1) eqn:E.
  - apply key_eqb_eq in E. intros [= ->]. left. by subst.
  - auto.
Qed.

Lemma lookup_key_map k ps (f : prop -> prop) :
  lookup_key k (map (fun kd => (fst kd, f (snd kd))) ps)
  = option_map f (lookup_key k ps).
Proof.
  induction ps as [|[k1 d1] ps IH]; simpl; [done|].
  destruct (key_eqb k k1); [done|apply IH].
Qed.

(** *** The order of [[OwnPropertyKeys]] lists every key *)

Lemma in_insert_index x l y : In y (insert_index x l) <-> y = x \/ In y l.
Proof.
  induction l as [|z l IH]; simpl.
  - split; intros [H|H]; auto.
  - destruct (fst x <? fst z)%N; simpl; [|rewrite IH];
      split; intros H; intuition auto.
Qed.

Lemma in_sort_index l y : In y (sort_index l) <-> In y l.
Proof.
  induction l as [|x l IH]; simpl; [done|].
  rewrite in_insert_index, IH. split; intros [H|H]; auto.
Qed.

Lemma in_index_keys ks n k :
  In (n, k) (index_keys ks) <-> In k ks /\ index_of k = Some n.
Proof.
  induction ks as [|k1 ks IH]; simpl; [tauto|].
  destruct (index_of k1) as [n1|] eqn:E; simpl; rewrite IH.
  - split.
    + intros [[= <- <-]|[H1 H2]]; auto.
    + intros [[->|H1] H2]; [left; congruence|auto].
  - split.
    + intros [H1 H2]; auto.
    + intros [[->|H1] H2]; [congruence|auto].
Qed.

Lemma in_own_keys o k : In k (own_keys o) <-> In k (map fst (props o)).
Proof.
  unfold own_keys. rewrite !in_app_iff, <- !list_elem_of_In.
  rewrite !list_elem_of_filter, !list_elem_of_In, in_map_iff.
  split.
  - intros [([n k'] & Hk & Hin)|[[_ H]|[_ H]]]; [|done..].
    simpl in Hk; subst k'. by apply in_sort_index, in_index_keys in Hin as [Hin _].
  - intros Hin. destruct (index_of k) as [n|] eqn:E.
    + left. exists (n, k). split; [done|].
      apply in_sort_index, in_index_keys. done.
    + right. destruct k as [s|i]; simpl in *.
      * left. by rewrite E.
      * by right.
Qed.

(** ** Frozen objects *)

Lemma own_prop_freeze o k :
  own_prop (freeze_object o) k = option_map freeze_prop (own_prop o k).
Proof. unfold own_prop, freeze_object; simpl. apply lookup_key_map. Qed.

Lemma is_frozen_freeze o : is_frozen (freeze_object o) = true.
Proof.
  unfold is_frozen, freeze_object; simpl.
  induction (props o) as [|[k d] ps IH]; simpl; [done|].
  rewrite IH. by destruct d.
Qed.

Lemma frozen_not_extensible o : is_frozen o = true -> extensible o = false.
Proof.
  unfold is_frozen. intros H. apply andb_prop in H as [H _].
  by destruct (extensible o).
Qed.

Lemma frozen_own_data o k v w e c :
  is_frozen o = true -> own_prop o k = Some (Data v w e c) ->
  w = false /\ c = false.
Proof.
  unfold is_frozen, own_prop. intros H Hk. apply andb_prop in H as [_ H].
  apply lookup_key_in in Hk.
  rewrite forallb_forall in H. specialize (H _ Hk). simpl in H.
  apply andb_prop in H as [H1 H2]. by destruct w, c.
Qed.

Lemma freeze_frozen o : is_frozen o = true -> freeze_object o = o.
Proof.
  intros H. pose proof (frozen_not_extensible o H) as He.
  unfold is_frozen in H. apply andb_prop in H as [_ H].
  destruct o as [p x ps c]; unfold freeze_object; simpl in *. subst x.
  f_equal. induction ps as [|[k d] ps IH]; simpl in *; [done|].
  apply andb_prop in H as [H1 H2]. rewrite IH by done. f_equal.
  destruct d as [v w e c'|g s e c']; simpl in *.
  - apply andb_prop in H1 as [Hw Hc]. by destruct w, c'.
  - by destruct c'.
Qed.

(** ** The prototype walk and [[Get]] *)

Lemma find_prop_S fuel (h : list object) l k :
  find_prop (S fuel) h (VRef l) k =
  match h !! l with
  | None => Broken
  | Some o =>
      match own_prop o k with
      | Some d => Found d
      | None => find_prop fuel h (proto o) k
      end
  end.
Proof. done. Qed.

Lemma find_prop_own fuel h l o k d :
  h !! l = Some o -> own_prop o k = Some d ->
  find_prop (S fuel) h (VRef l) k = Found d.
Proof. intros Hl Hk. simpl. by rewrite Hl, Hk. Qed.

Lemma lookup_Some_length (h : list object) (l : nat) (o : object) :
  h !! l = Some o -> exists n, length h = S n.
Proof.
  intros Hl. apply lookup_lt_Some in Hl.
  destruct (length h); [lia|eauto].
Qed.

(** Reading an own data property yields its value and runs no code. *)
Lemma get_own_data r (h : list object) l o k v w e c :
  h !! l = Some o -> own_prop o k = Some (Data v w e c) ->
  get r l k h = Normal v h.
Proof.
  intros Hl Hk. unfold get.
  destruct (lookup_Some_length h l o Hl) as [n ->].
  by rewrite (find_prop_own n h l o k _ Hl Hk).
Qed.

(** A walk that succeeds is the same walk with more fuel. *)
Lemma find_prop_more_fuel (h : list object) n m v k :
  find_prop n h v k <> Broken -> n <= m ->
  find_prop m h v k = find_prop n h v k.
Proof.
  revert m v. induction n as [|n IH]; intros m v Hok Hle.
  - destruct v; simpl in *; try done. by destruct m.
  - destruct m as [|m]; [lia|].
    destruct v as [| |z|s|l]; simpl in *; try done.
    destruct (h !! l) as [o|]; [|done].
    destruct (own_prop o k); [done|]. apply IH; [done|lia].
Qed.

(** A walk that succeeds is the same walk in a heap with more objects. *)
Lemma find_prop_app (h : list object) os n v k :
  find_prop n h v k <> Broken ->
  find_prop n (h ++ os) v k = find_prop n h v k.
Proof.
  revert v. induction n as [|n IH]; intros v Hok;
    destruct v as [| |z|s|l]; simpl in *; try done.
  destruct (h !! l) as [o|] eqn:Hl; [|done].
  rewrite (lookup_app_l_Some _ _ _ _ Hl).
  destruct (own_prop o k); [done|]. by apply IH.
Qed.

Lemma find_prop_grown (h : list object) os v k :
  find_prop (length h) h v k <> Broken ->
  find_prop (length (h ++ os)) (h ++ os) v k = find_prop (length h) h v k.
Proof.
  intros Hok. rewrite (find_prop_more_fuel (h ++ os) (length h)).
  - by apply find_prop_app.
  - by rewrite find_prop_app.
  - rewrite length_app. lia.
Qed.

Lemma chain_lets_ok h p k : chain_lets h p k -> find_prop (length h) h p k <> Broken.
Proof. intros [H|(v & e & c & H)]; rewrite H; done. Qed.

Lemma chain_lets_grown (h : list object) os p k :
  chain_lets h p k -> chain_lets (h ++ os) p k.
Proof.
  intros H. pose proof (chain_lets_ok _ _ _ H) as Hok.
  unfold chain_lets. by rewrite (find_prop_grown h os p k Hok).
Qed.

Lemma call_function_apply r (h : list object) f extensions z :
  is_apply_fn h f extensions ->
  call_function r (VRef f) z h = extendZod r extensions z h.
Proof. intros (fo & Hf & Hc). unfold call_function. by rewrite Hf, Hc. Qed.

(** ** What a run leaves alone *)

(** The operations of [extendZod] write to one object, the target, and
    only while it is not frozen; anything else that changes is changed by
    user code.  So whatever user code protects, and the target does not
    fall under unless frozen, is kept. *)
Section Protected.

Context (r : realm) (P : nat -> object -> Prop).

Hypothesis user_keeps : forall id this args, keeping P (user_call r id this args).

Lemma keeps_refl (h : list object) : keeps P h h.
Proof. by intros l o Hl _. Qed.

Lemma keeps_trans (h1 h2 h3 : list object) :
  keeps P h1 h2 -> keeps P h2 h3 -> keeps P h1 h3.
Proof. intros H12 H23 l o Hl HP. apply H23; [|done]. by apply H12. Qed.

Lemma keeps_insert (h : list object) t o o' :
  h !! t = Some o -> (P t o -> o' = o) -> keeps P h (<[t := o']> h).
Proof.
  intros Ht Hsame l o1 Hl HP. destruct (decide (l = t)) as [->|Hne].
  - assert (o1 = o) as -> by congruence. rewrite (Hsame HP).
    by rewrite list_insert_id.
  - by rewrite list_lookup_insert_ne.
Qed.

Lemma keeps_app (h : list object) os : keeps P h (h ++ os).
Proof. intros l o Hl _. by apply lookup_app_l_Some. Qed.

Lemma ret_keeping {A} (a : A) : keeping P (ret a).
Proof. intros h h' [= <-]. apply keeps_refl. Qed.

Lemma bind_keeping {A B} (m : M A) (f : A -> M B) :
  keeping P m -> (forall a, keeping P (f a)) -> keeping P (bind m f).
Proof.
  intros Hm Hf h h'. unfold bind.
  destruct (m h) as [a h1|e h1|] eqn:E; simpl; [|intros [= <-]|done].
  - intros H. eapply keeps_trans; [|by eapply Hf]. apply Hm. by rewrite E.
  - apply Hm. by rewrite E.
Qed.

Lemma call_getter_keeping g l : keeping P (call_getter r g l).
Proof.
  destruct g; simpl.
  - intros h h'. destruct (h !! l); simpl; [|done]. intros [= <-]. apply keeps_refl.
  - apply ret_keeping.
  - apply user_keeps.
Qed.

Lemma get_keeping l k : keeping P (get r l k).
Proof.
  intros h h'. unfold get.
  destruct (find_prop (length h) h (VRef l) k) as [[v w e c|[g|] s e c]| |];
    simpl; try (intros [= <-]; apply keeps_refl).
  apply call_getter_keeping.
Qed.

Section Target.

Context (t : nat).

(** The target is not protected while it can be written. *)
Hypothesis target_open : forall o, P t o -> is_frozen o = true.

Lemma set_prototype_of_keeping v : keeping P (set_prototype_of t v).
Proof.
  intros h h'. unfold set_prototype_of.
  destruct (h !! t) as [o|] eqn:Ht; [|done].
  destruct (value_eqb v (proto o)); [intros [= <-]; apply keeps_refl|].
  destruct (extensible o) eqn:He; simpl; [|intros [= <-]; apply keeps_refl].
  destruct (reaches (length h) h v t) as [[]|]; simpl;
    [intros [= <-]; apply keeps_refl| |done].
  intros [= <-]. apply (keeps_insert h t o); [done|].
  intros HP. apply target_open, frozen_not_extensible in HP. congruence.
Qed.

Lemma call_setter_keeping s v : keeping P (call_setter r s t v).
Proof.
  destruct s; simpl.
  - apply ret_keeping.
  - destruct v; try apply ret_keeping; apply set_prototype_of_keeping.
  - apply bind_keeping; [apply user_keeps|intros; apply ret_keeping].
Qed.

Lemma ordinary_set_keeping k v : keeping P (ordinary_set r t k v).
Proof.
  intros h h'. unfold ordinary_set.
  destruct (h !! t) as [o|] eqn:Ht; [|done].
  assert (Hdata :
    heap_of (match own_prop o k with
    | Some (Accessor _ _ _ _) => Throw (TypeError (InSet k)) h
    | Some (Data _ false _ _) => Throw (TypeError (InSet k)) h
    | Some (Data _ true e c) =>
        Normal tt
          (<[t := set_props o (replace_key k (Data v true e c) (props o))]> h)
    | None =>
        if extensible o
        then Normal tt
               (<[t := set_props o (props o ++ [(k, Data v true true true)])]> h)
        else Throw (TypeError (InSet k)) h
    end) = Some h' -> keeps P h h').
  { destruct (own_prop o k) as [[v0 [] e c|g s e c]|] eqn:Hk; simpl;
      try (intros [= <-]; apply keeps_refl).
    - intros [= <-]. apply (keeps_insert h t o); [done|].
      intros HP. apply target_open in HP.
      by destruct (frozen_own_data o k v0 true e c HP Hk).
    - destruct (extensible o) eqn:He; simpl; [|intros [= <-]; apply keeps_refl].
      intros [= <-]. apply (keeps_insert h t o); [done|].
      intros HP. apply target_open, frozen_not_extensible in HP. congruence. }
  destruct (find_prop (length h) h (VRef t) k) as [[v0 [] e c|g [s|] e c]| |];
    try done; try (simpl; intros [= <-]; apply keeps_refl).
  apply call_setter_keeping.
Qed.

Lemma overlay_keeping es : keeping P (overlay r t es).
Proof.
  induction es as [|[k v] es IH]; simpl; [apply ret_keeping|].
  apply bind_keeping; [apply ordinary_set_keeping|done].
Qed.

Lemma assign_keys_keeping s ks : keeping P (assign_keys r t s ks).
Proof.
  induction ks as [|k ks IH]; simpl; [apply ret_keeping|].
  intros h h'. destruct (h !! s) as [o|]; [|done].
  destruct (own_prop o k) as [d|]; [|apply IH].
  destruct (enumerable_of d); [|apply IH].
  apply bind_keeping; [apply get_keeping|]. intros v.
  apply bind_keeping; [apply ordinary_set_keeping|done].
Qed.

Lemma object_assign_keeping z : keeping P (object_assign r t z).
Proof.
  destruct z as [| |n|s|s]; simpl; try apply ret_keeping.
  - apply overlay_keeping.
  - intros h h'. destruct (h !! s) as [o|]; [|done]. apply assign_keys_keeping.
Qed.

Lemma object_freeze_keeping : keeping P (object_freeze (VRef t)).
Proof.
  intros h h'. unfold object_freeze.
  destruct (h !! t) as [o|] eqn:Ht; [|done]. simpl. intros [= <-].
  apply (keeps_insert h t o); [done|].
  intros HP. by apply freeze_frozen, target_open.
Qed.

End Target.

Lemma entries_of_keeping l ks : keeping P (entries_of r l ks).
Proof.
  induction ks as [|k ks IH]; simpl; [apply ret_keeping|].
  intros h h'. destruct (h !! l) as [o|]; [|done].
  destruct (own_prop o k) as [d|]; [|apply IH].
  destruct (is_string_key k && enumerable_of d); [|apply IH].
  apply bind_keeping; [apply get_keeping|]. intros v.
  apply bind_keeping; [done|]. intros es. apply ret_keeping.
Qed.

Lemma object_entries_keeping v : keeping P (object_entries r v).
Proof.
  destruct v as [| |n|s|l]; simpl; try apply ret_keeping;
    try (intros h h' [= <-]; apply keeps_refl).
  intros h h'. destruct (h !! l) as [o|]; [|done]. apply entries_of_keeping.
Qed.

(** The target of [extendZod] is the object it allocates, at the end of
    the heap. *)
Lemma extendZod_keeps extensions z (h h' : list object) :
  (forall o, P (length h) o -> is_frozen o = true) ->
  heap_of (extendZod r extensions z h) = Some h' -> keeps P h h'.
Proof.
  intros Hopen. unfold extendZod. unfold bind at 1.
  destruct (get_prototype_of r z h) as [p h1|e h1|] eqn:Hp; [| |done].
  2:{ simpl. intros [= <-].
      unfold get_prototype_of in Hp. destruct z; try destruct (h !! l);
        simplify_eq; apply keeps_refl. }
  assert (h1 = h) as ->.
  { unfold get_prototype_of in Hp. destruct z; try destruct (h !! l);
      by simplify_eq. }
  unfold bind at 1.
  destruct (object_create p h) as [t h1|e h1|] eqn:Hc; [| |done].
  2:{ simpl. intros [= <-]. unfold object_create in Hc.
      destruct p; simplify_eq; apply keeps_refl. }
  assert (t = length h /\ keeps P h h1) as [-> Hk1].
  { unfold object_create in Hc. destruct p; simplify_eq;
      (split; [done|apply keeps_app]). }
  intros H. apply (keeps_trans h h1 h'); [done|]. revert H.
  apply bind_keeping; [by apply object_assign_keeping|]. intros _.
  apply bind_keeping; [apply object_entries_keeping|]. intros es.
  apply bind_keeping; [by apply overlay_keeping|]. intros _.
  by apply object_freeze_keeping.
Qed.

Lemma call_function_keeps f z (h h' : list object) :
  (forall o, P (length h) o -> is_frozen o = true) ->
  heap_of (call_function r f z h) = Some h' -> keeps P h h'.
Proof.
  intros Hopen. unfold call_function.
  destruct f as [| | | |l]; try (simpl; intros [= <-]; apply keeps_refl).
  destruct (h !! l) as [o|]; [|done].
  destruct (call o); try done; try (simpl; intros [= <-]; apply keeps_refl).
  by apply extendZod_keeps.
Qed.

End Protected.

(** No operation of a call changes a frozen object. *)
Lemma call_function_keeps_frozen r f z (h h' : list object) :
  heap_of (call_function r f z h) = Some h' -> keeps_frozen h h'.
Proof.
  apply (call_function_keeps r (fun _ o => is_frozen o = true)); [|done].
  intros id this args h1 h2 H l o Hl Hfr. by eapply user_call_frozen.
Qed.

Lemma ordinary_set_keeps_frozen r t k v (h h' : list object) :
  heap_of (ordinary_set r t k v h) = Some h' -> keeps_frozen h h'.
Proof.
  apply (ordinary_set_keeping r (fun _ o => is_frozen o = true)); [|done].
  intros id this args h1 h2 H l o Hl Hfr. by eapply user_call_frozen.
Qed.


(** ** The values that are copied and overlaid *)

Lemma copy_value_Some so k v :
  copy_value so k = Some v <-> exists w c, own_prop so k = Some (Data v w true c).
Proof.
  unfold copy_value. split.
  - destruct (own_prop so k) as [[v0 w [] c|]|]; try done. intros [= ->]. eauto.
  - by intros (w & c & ->).
Qed.

Lemma copy_value_in so k v : copy_value so k = Some v -> In k (own_keys so).
Proof.
  intros (w & c & H)%copy_value_Some. apply in_own_keys.
  by eapply lookup_key_Some_in.
Qed.

Lemma overlay_value_Some eo k v :
  overlay_value eo k = Some v <->
  is_string_key k = true /\ exists w c, own_prop eo k = Some (Data v w true c).
Proof.
  unfold overlay_value. destruct (is_string_key k).
  - rewrite copy_value_Some. tauto.
  - split; [done|]. by intros [? _].
Qed.

Lemma overlay_value_in eo k v : overlay_value eo k = Some v -> In k (own_keys eo).
Proof.
  intros [_ (w & c & H)]%overlay_value_Some. apply in_own_keys.
  by eapply lookup_key_Some_in.
Qed.

Lemma copy_value_written so eo k v : copy_value so k = Some v -> written so eo k.
Proof. intros (w & c & H)%copy_value_Some. right. eauto. Qed.

Lemma overlay_value_written so eo k v :
  overlay_value eo k = Some v -> written so eo k.
Proof. intros [Hs (w & c & H)]%overlay_value_Some. left. split; eauto. Qed.

(** Without getters among them, the written keys are those with a value. *)
Lemma overlaid_value eo k :
  data_only true eo -> overlaid eo k -> exists v, overlay_value eo k = Some v.
Proof.
  intros Hd [Hs (d & Hk & He)].
  destruct (Hd k d Hk He (fun _ => Hs)) as (v & w & c & ->).
  exists v. apply overlay_value_Some. eauto.
Qed.

Lemma not_overlaid_value eo k : ~ overlaid eo k -> overlay_value eo k = None.
Proof.
  intros Hn. destruct (overlay_value eo k) as [v|] eqn:E; [|done].
  apply overlay_value_Some in E as [Hs (w & c & H)].
  destruct Hn. split; eauto.
Qed.

Lemma written_value so eo k :
  data_only false so -> data_only true eo -> written so eo k ->
  (exists v, overlay_value eo k = Some v) \/ (exists v, copy_value so k = Some v).
Proof.
  intros Hdb Hde [Hov|(d & Hk & Hen)].
  - left. by apply overlaid_value.
  - right. destruct (Hdb k d Hk Hen) as (v & w & c & ->); [done|].
    exists v. apply copy_value_Some. eauto.
Qed.

Lemma lets_not_refused h p k : chain_lets h p k -> refused h p k -> False.
Proof.
  intros [H|(v & e & c & H)] [(v' & e' & c' & H')|(g & e' & c' & H')]; congruence.
Qed.

Lemma refused_ok h p k : refused h p k -> find_prop (length h) h p k <> Broken.
Proof. intros [(v & e & c & H)|(g & e & c & H)]; rewrite H; done. Qed.

(** ** A call that runs no user code *)

Section Construction.

Context (r : realm) (h0 : list object) (t : nat).

(** A walk that succeeds in the old heap is the same walk in the new. *)
Lemma find_prop_uc h fuel v k :
  under_construction h0 t h ->
  find_prop fuel h0 v k <> Broken ->
  find_prop fuel h v k = find_prop fuel h0 v k.
Proof.
  intros Huc. revert v.
  induction fuel as [|n IH]; intros v; destruct v as [| |z|s|l]; simpl; try done.
  destruct (h0 !! l) as [o|] eqn:Hl; [|done].
  rewrite (uc_old _ _ _ Huc l), Hl.
  - destruct (own_prop o k); [done|]. apply IH.
  - rewrite (uc_target _ _ _ Huc). by eapply lookup_lt_Some.
Qed.

(** What the walk from the new object finds: its own property, or what
    the chain of its prototype holds. *)
Lemma find_prop_target h p k :
  under_construction h0 t h -> proto_at h t = Some p ->
  find_prop (length h0) h0 p k <> Broken ->
  find_prop (length h) h (VRef t) k =
  match own_at h t k with
  | Some d => Found d
  | None => find_prop (length h0) h0 p k
  end.
Proof.
  intros Huc Hp Hok. destruct (uc_new _ _ _ Huc) as (o & Ho & _).
  unfold proto_at, own_at in *. rewrite Ho in *. injection Hp as Hp.
  rewrite (uc_length _ _ _ Huc). simpl. rewrite Ho.
  destruct (own_prop o k); [done|]. rewrite Hp. by apply find_prop_uc.
Qed.

Lemma uc_app h :
  under_construction h0 t h -> exists o, h = h0 ++ [o] /\ assigned_only o.
Proof.
  intros [Ht Hlen Hold (o & Ho & Ha)]. exists o. split; [|done].
  apply list_eq. intros i.
  destruct (lt_eq_lt_dec i t) as [[Hlt| ->]|Hgt].
  - rewrite (Hold i Hlt), lookup_app_l by lia. done.
  - rewrite Ho, lookup_app_r by lia. subst t. by rewrite Nat.sub_diag.
  - rewrite !lookup_ge_None_2; [done| |].
    + rewrite length_app. simpl. lia.
    + lia.
Qed.

(** Assigning a key that the chain lets through creates or updates the
    own property of the new object, and nothing else. *)
Lemma ordinary_set_lets h k v p :
  under_construction h0 t h -> proto_at h t = Some p -> chain_lets h0 p k ->
  exists h',
    ordinary_set r t k v h = Normal tt h'
    /\ under_construction h0 t h' /\ proto_at h' t = Some p
    /\ forall k', own_at h' t k' =
         if key_eqb k' k then Some (Data v true true true) else own_at h t k'.
Proof.
  intros Huc Hp Hlets.
  pose proof (chain_lets_ok _ _ _ Hlets) as Hok.
  pose proof (find_prop_target h p k Huc Hp Hok) as Hfind.
  pose proof Huc as [Ht Hlen Hold (o & Ho & Ha)].
  assert (Hlt : t < length h) by (by eapply lookup_lt_Some).
  assert (Hnew : forall o',
    extensible o' = true -> proto o' = proto o ->
    (forall k', own_prop o' k' =
       if key_eqb k' k then Some (Data v true true true) else own_prop o k') ->
    under_construction h0 t (<[t := o']> h)
    /\ proto_at (<[t := o']> h) t = Some p
    /\ forall k', own_at (<[t := o']> h) t k' =
         if key_eqb k' k then Some (Data v true true true) else own_at h t k').
  { intros o' He' Hpo Hown. unfold own_at, proto_at in *. rewrite Ho in *.
    rewrite list_lookup_insert_eq by done. split; [|split].
    - split; [done|by rewrite length_insert| |].
      + intros l Hl. rewrite list_lookup_insert_ne by lia. by apply Hold.
      + exists o'. split; [by apply list_lookup_insert_eq|]. split; [done|].
        intros k' d'. rewrite Hown. destruct (key_eqb k' k).
        * intros [= <-]. eauto.
        * apply Ha.
    - by rewrite Hpo.
    - done. }
  assert (Hoa : own_at h t k = own_prop o k) by (unfold own_at; by rewrite Ho).
  rewrite Hoa in Hfind. unfold ordinary_set. rewrite Ho, Hfind.
  destruct (own_prop o k) as [d|] eqn:Hk.
  - destruct (proj2 Ha k d Hk) as [v0 ->]. eexists. split; [done|].
    apply Hnew; [apply Ha|done|].
    intros k'. unfold own_prop in *; simpl. by rewrite lookup_key_replace, Hk.
  - assert (Hdata :
      (if extensible o
       then Normal tt
              (<[t := set_props o (props o ++ [(k, Data v true true true)])]> h)
       else Throw (TypeError (InSet k)) h)
      = Normal tt
          (<[t := set_props o (props o ++ [(k, Data v true true true)])]> h)).
    { by rewrite (proj1 Ha). }
    exists (<[t := set_props o (props o ++ [(k, Data v true true true)])]> h).
    split.
    { destruct Hlets as [->|(v0 & e & c & ->)]; done. }
    apply Hnew; [apply Ha|done|].
    intros k'. unfold own_prop in *; simpl. rewrite lookup_key_app.
    destruct (key_eqb k' k) eqn:E.
    + apply key_eqb_eq in E; subst k'. by rewrite Hk.
    + by destruct (lookup_key k' (props o)).
Qed.

(** A loop of assignments that the chain lets through: every key with a
    value ends up holding it, the others are left as they were. *)
Lemma overlay_lets f ks h p :
  under_construction h0 t h -> proto_at h t = Some p ->
  (forall k v, In k ks -> f k = Some v -> chain_lets h0 p k) ->
  exists h',
    overlay r t (pairs_of f ks) h = Normal tt h'
    /\ under_construction h0 t h' /\ proto_at h' t = Some p
    /\ (forall k v, In k ks -> f k = Some v ->
        own_at h' t k = Some (Data v true true true))
    /\ (forall k, ~ In k ks \/ f k = None -> own_at h' t k = own_at h t k).
Proof.
  revert h. induction ks as [|k1 ks IH]; intros h Huc Hp Hlets.
  - exists h. simpl. do 3 (split; [done|]). split; [by intros k v []|done].
  - simpl. destruct (f k1) as [v1|] eqn:Hf.
    + destruct (ordinary_set_lets h k1 v1 p Huc Hp) as (h1 & Hset & Huc1 & Hp1 & Hown1).
      { apply (Hlets k1 v1); [by left|done]. }
      destruct (IH h1 Huc1 Hp1) as (h' & Hov & Huc' & Hp' & Hin & Hout).
      { intros k v Hk. apply Hlets. by right. }
      exists h'. simpl. unfold bind. rewrite Hset. do 3 (split; [done|]). split.
      * intros k v [<-|Hk] Hfk.
        -- destruct (in_dec key_eq_dec k1 ks) as [Hk|Hk]; [by apply Hin|].
           rewrite Hout by (by left). rewrite Hown1, key_eqb_refl. congruence.
        -- by apply Hin.
      * intros k Hk. rewrite Hout, Hown1.
        -- destruct (key_eqb k k1) eqn:E; [|done].
           apply key_eqb_eq in E; subst k. destruct Hk as [Hk|Hk]; [|congruence].
           destruct Hk. by left.
        -- destruct Hk as [Hk|Hk]; [|by right]. left. intros Hin'. apply Hk. by right.
    + destruct (IH h Huc Hp) as (h' & Hov & Huc' & Hp' & Hin & Hout).
      { intros k v Hk. apply Hlets. by right. }
      exists h'. do 3 (split; [done|]). split.
      * intros k v [<-|Hk] Hfk; [congruence|by apply Hin].
      * intros k Hk. apply Hout. destruct Hk as [Hk|Hk]; [|by right].
        left. intros Hin'. apply Hk. by right.
Qed.

(** Assigning a key that the chain refuses, and that the new object does
    not own, throws and changes nothing. *)
Lemma ordinary_set_refused h k v p :
  under_construction h0 t h -> proto_at h t = Some p ->
  refused h0 p k -> own_at h t k = None ->
  ordinary_set r t k v h = Throw (TypeError (InSet k)) h.
Proof.
  intros Huc Hp Href Hnone.
  pose proof (find_prop_target h p k Huc Hp (refused_ok _ _ _ Href)) as Hfind.
  rewrite Hnone in Hfind.
  destruct (uc_new _ _ _ Huc) as (o & Ho & _).
  unfold ordinary_set. rewrite Ho, Hfind.
  by destruct Href as [(v0 & e & c & ->)|(g & e & c & ->)].
Qed.

Lemma refused_unowned_step h h1 k p :
  refused_unowned h0 p t h -> chain_lets h0 p k ->
  (forall k', k' <> k -> own_at h1 t k' = own_at h t k') ->
  refused_unowned h0 p t h1.
Proof.
  intros Hun Hlets Hown k' Href.
  assert (Hne : k' <> k).
  { intros ->. by eapply lets_not_refused. }
  rewrite Hown by done. by apply Hun.
Qed.

(** A loop of assignments when the chain may refuse some keys: it runs
    through when every key with a value is let through, and otherwise
    throws at a refused key. *)
Lemma overlay_calm f ks h p :
  under_construction h0 t h -> proto_at h t = Some p ->
  refused_unowned h0 p t h ->
  (forall k v, In k ks -> f k = Some v -> chain_lets h0 p k \/ refused h0 p k) ->
  (exists h',
     overlay r t (pairs_of f ks) h = Normal tt h'
     /\ under_construction h0 t h' /\ proto_at h' t = Some p
     /\ refused_unowned h0 p t h'
     /\ forall k v, In k ks -> f k = Some v -> chain_lets h0 p k)
  \/ (exists k v h',
        In k ks /\ f k = Some v /\ refused h0 p k
        /\ overlay r t (pairs_of f ks) h = Throw (TypeError (InSet k)) h'
        /\ under_construction h0 t h').
Proof.
  revert h. induction ks as [|k1 ks IH]; intros h Huc Hp Hun Hcalm.
  - left. exists h. simpl. do 4 (split; [done|]). by intros k v [].
  - simpl. destruct (f k1) as [v1|] eqn:Hf.
    + destruct (Hcalm k1 v1) as [Hlets|Href]; [by left|done| |].
      * destruct (ordinary_set_lets h k1 v1 p Huc Hp Hlets)
          as (h1 & Hset & Huc1 & Hp1 & Hown1).
        assert (Hun1 : refused_unowned h0 p t h1).
        { apply (refused_unowned_step h h1 k1 p Hun Hlets).
          intros k' Hne. rewrite Hown1. apply key_eqb_neq in Hne. by rewrite Hne. }
        destruct (IH h1 Huc1 Hp1 Hun1) as [(h' & Hov & ? & ? & ? & Hall)|
                                          (k & v & h' & ? & ? & ? & Hov & ?)].
        { intros k v Hk. apply Hcalm. by right. }
        -- left. exists h'. simpl. unfold bind. rewrite Hset.
           do 4 (split; [done|]). intros k v [<-|Hk] Hfk; [done|by eapply Hall].
        -- right. exists k, v, h'. split; [by right|]. do 2 (split; [done|]).
           simpl. unfold bind. by rewrite Hset.
      * right. exists k1, v1, h. split; [by left|]. do 2 (split; [done|]).
        simpl. unfold bind.
        by rewrite (ordinary_set_refused h k1 v1 p Huc Hp Href (Hun k1 Href)).
    + destruct (IH h Huc Hp Hun) as [(h' & Hov & ? & ? & ? & Hall)|
                                    (k & v & h' & ? & ? & ? & Hov & ?)].
      { intros k v Hk. apply Hcalm. by right. }
      * left. exists h'. do 4 (split; [done|]).
        intros k v [<-|Hk] Hfk; [congruence|by eapply Hall].
      * right. exists k, v, h'. split; [by right|]. done.
Qed.

(** Without getters in the source, the loop of [Object.assign] is a loop
    of assignments of the values the source holds, as long as the chain
    hands none of them to a setter. *)
Lemma assign_keys_overlay s so ks h p :
  under_construction h0 t h -> proto_at h t = Some p ->
  refused_unowned h0 p t h ->
  s < t -> h0 !! s = Some so -> data_only false so ->
  (forall k v, In k ks -> copy_value so k = Some v ->
               chain_lets h0 p k \/ refused h0 p k) ->
  assign_keys r t s ks h = overlay r t (pairs_of (copy_value so) ks) h.
Proof.
  intros Huc Hp Hun Hs Hso Hd. revert h Huc Hp Hun.
  induction ks as [|k ks IH]; intros h Huc Hp Hun Hcalm; [done|].
  assert (IH' : forall h1, under_construction h0 t h1 -> proto_at h1 t = Some p ->
    refused_unowned h0 p t h1 ->
    assign_keys r t s ks h1 = overlay r t (pairs_of (copy_value so) ks) h1).
  { intros h1 Huc1 Hp1 Hun1. apply IH; [done..|].
    intros k' v' Hk'. apply Hcalm. by right. }
  assert (Hsrc : h !! s = Some so) by (by rewrite (uc_old _ _ _ Huc s Hs)).
  simpl. rewrite Hsrc. unfold copy_value at 1.
  destruct (own_prop so k) as [d|] eqn:Hk; [|by apply IH'].
  destruct (enumerable_of d) eqn:He.
  - destruct (Hd k d Hk He) as (v & w & c & ->); [done|].
    unfold bind at 1. rewrite (get_own_data r h s so k v w true c Hsrc Hk).
    destruct (Hcalm k v) as [Hlets|Href];
      [by left|apply copy_value_Some; eauto| |].
    + destruct (ordinary_set_lets h k v p Huc Hp Hlets)
        as (h1 & Hset & Huc1 & Hp1 & Hown1).
      simpl. unfold bind. rewrite Hset. apply IH'; [done..|].
      apply (refused_unowned_step h h1 k p Hun Hlets).
      intros k' Hne. rewrite Hown1. apply key_eqb_neq in Hne. by rewrite Hne.
    + simpl. unfold bind.
      by rewrite (ordinary_set_refused h k v p Huc Hp Href (Hun k Href)).
  - destruct d as [v w [] c|g st [] c]; try done; by apply IH'.
Qed.

End Construction.

(** Without getters in the object, [Object.entries] lists the values its
    enumerable string keys hold, and leaves the heap alone. *)
Lemma entries_of_pairs r (h : list object) e eo ks :
  h !! e = Some eo -> data_only true eo ->
  entries_of r e ks h = Normal (pairs_of (overlay_value eo) ks) h.
Proof.
  intros He Hd. induction ks as [|k ks IH]; [done|].
  simpl. rewrite He. unfold overlay_value at 1, copy_value.
  destruct (is_string_key k) eqn:Hs; simpl.
  - destruct (own_prop eo k) as [d|] eqn:Hk; [|done].
    destruct (enumerable_of d) eqn:Hen.
    + destruct (Hd k d Hk Hen (fun _ => Hs)) as (v & w & c & ->).
      unfold bind. rewrite (get_own_data r h e eo k v w true c He Hk).
      by rewrite IH.
    + destruct d as [v w [] c|g st [] c]; done.
  - by destruct (own_prop eo k).
Qed.

Lemma uc_keeps (h0 : list object) t h :
  under_construction h0 t h -> keeps_objects h0 h.
Proof.
  intros Huc l o Hl. rewrite (uc_old _ _ _ Huc l); [done|].
  rewrite (uc_target _ _ _ Huc). by eapply lookup_lt_Some.
Qed.

Lemma uc_after_create (h : list object) p :
  under_construction h (length h) (h ++ [Obj p true [] NotCallable]).
Proof.
  split; [done| | |].
  - rewrite length_app. simpl. lia.
  - intros l Hl. by rewrite lookup_app_l.
  - eexists. split.
    + rewrite lookup_app_r by done. by rewrite Nat.sub_diag.
    + split; [done|]. intros k d. done.
Qed.

(** The result of a quiet call: one new object, the overlay of the map
    over the copy of the base, frozen; nothing else changes. *)
Lemma extendZod_quiet r (h : list object) e b eo so :
  h !! e = Some eo -> h !! b = Some so -> quiet h so eo ->
  exists o',
    extendZod r (VRef e) (VRef b) h = Normal (VRef (length h)) (h ++ [o'])
    /\ proto o' = proto so /\ is_frozen o' = true
    /\ forall k, own_prop o' k = layered so eo k.
Proof.
  intros He Hb [Hproto Hdb Hde Hchain].
  set (t := length h).
  set (h1 := h ++ [Obj (proto so) true [] NotCallable]).
  assert (Hcreate : object_create (proto so) h = Normal t h1).
  { unfold object_create, h1, t.
    destruct Hproto as [E|[p E]]; rewrite E; reflexivity. }
  pose proof (uc_after_create h (proto so)) as Huc1. fold t h1 in Huc1.
  assert (Hp1 : proto_at h1 t = Some (proto so)).
  { unfold proto_at, h1, t. rewrite lookup_app_r by done. by rewrite Nat.sub_diag. }
  assert (Hown1 : forall k, own_at h1 t k = None).
  { intros k. unfold own_at, h1, t. rewrite lookup_app_r by done.
    by rewrite Nat.sub_diag. }
  assert (Hbt : b < t) by (by eapply lookup_lt_Some).
  assert (Het : e < t) by (by eapply lookup_lt_Some).
  destruct (overlay_lets r h t (copy_value so) (own_keys so) h1 (proto so) Huc1 Hp1)
    as (hA & HovA & HucA & HpA & HinA & HoutA).
  { intros k v _ Hv. apply Hchain. by eapply copy_value_written. }
  destruct (overlay_lets r h t (overlay_value eo) (own_keys eo) hA (proto so) HucA HpA)
    as (hO & HovO & HucO & HpO & HinO & HoutO).
  { intros k v _ Hv. apply Hchain. by eapply overlay_value_written. }
  destruct (uc_app h t hO HucO) as (o & -> & Ha).
  exists (freeze_object o).
  assert (Hot : (h ++ [o]) !! t = Some o).
  { unfold t. rewrite lookup_app_r by done. by rewrite Nat.sub_diag. }
  split; [|split; [|split]].
  - unfold extendZod, bind. unfold get_prototype_of. rewrite Hb, Hcreate.
    unfold object_assign.
    assert (h1 !! b = Some so) as -> by (by apply lookup_app_l_Some).
    rewrite (assign_keys_overlay r h t b so (own_keys so) h1 (proto so)); try done.
    2:{ intros k _. apply Hown1. }
    2:{ intros k v _ Hv. left. apply Hchain. by eapply copy_value_written. }
    rewrite HovA. unfold object_entries.
    assert (HeA : hA !! e = Some eo) by (by rewrite (uc_old _ _ _ HucA e Het)).
    rewrite HeA, (entries_of_pairs r hA e eo (own_keys eo) HeA Hde), HovO.
    unfold object_freeze. rewrite Hot. f_equal.
    unfold t. rewrite insert_app_r_alt by done. by rewrite Nat.sub_diag.
  - simpl. unfold proto_at in HpO. rewrite Hot in HpO. congruence.
  - apply is_frozen_freeze.
  - intros k. rewrite own_prop_freeze. unfold layered.
    assert (Hk : own_prop o k = own_at (h ++ [o]) t k).
    { unfold own_at. by rewrite Hot. }
    rewrite Hk. destruct (overlay_value eo k) as [v|] eqn:Hov.
    + rewrite (HinO k v); [done| |done]. by eapply overlay_value_in.
    + rewrite HoutO by (by right).
      destruct (copy_value so k) as [v|] eqn:Hcv.
      * rewrite (HinA k v); [done| |done]. by eapply copy_value_in.
      * rewrite HoutA by (by right). by rewrite Hown1.
Qed.

(** ** Checking a concrete heap *)

Lemma chain_letsb_sound h p k : chain_letsb h p k = true -> chain_lets h p k.
Proof.
  unfold chain_letsb, chain_lets.
  destruct (find_prop (length h) h p k) as [[v [] e c|g s e c]| |]; try done.
  - right. eauto.
  - by left.
Qed.

Lemma refusedb_sound h p k : refusedb h p k = true -> refused h p k.
Proof.
  unfold refusedb, refused.
  destruct (find_prop (length h) h p k) as [[v [] e c|g [s|] e c]| |]; try done.
  - left. eauto.
  - right. eauto.
Qed.

Lemma data_onlyb_sound o b : data_onlyb o = true -> data_only b o.
Proof.
  unfold data_onlyb. rewrite forallb_forall. intros H k d Hk Hen _.
  apply lookup_key_in in Hk. specialize (H _ Hk). simpl in H.
  destruct d as [v w e c|g s e c]; simpl in *.
  - subst e. eauto.
  - by rewrite Hen in H.
Qed.

Lemma written_in_props so eo k :
  written so eo k -> In k (map fst (props so) ++ map fst (props eo)).
Proof.
  rewrite in_app_iff. intros [[_ (d & Hk & _)]|(d & Hk & _)].
  - right. by eapply lookup_key_Some_in.
  - left. by eapply lookup_key_Some_in.
Qed.

Lemma is_object_or_null_sound v :
  is_object_or_null v = true -> v = VNull \/ exists p, v = VRef p.
Proof. destruct v; try done; eauto. Qed.

Lemma quietb_sound h so eo : quietb h so eo = true -> quiet h so eo.
Proof.
  unfold quietb. intros H.
  apply andb_prop in H as [H Hc]. apply andb_prop in H as [H He].
  apply andb_prop in H as [Hp Hb].
  split.
  - by apply is_object_or_null_sound.
  - by apply data_onlyb_sound.
  - by apply data_onlyb_sound.
  - intros k Hw. apply chain_letsb_sound.
    rewrite forallb_forall in Hc. by apply Hc, written_in_props.
Qed.

Lemma calmb_sound h so eo : calmb h so eo = true -> calm h so eo.
Proof.
  unfold calmb. intros H.
  apply andb_prop in H as [H Hc]. apply andb_prop in H as [H He].
  apply andb_prop in H as [Hp Hb].
  split.
  - by apply is_object_or_null_sound.
  - by apply data_onlyb_sound.
  - by apply data_onlyb_sound.
  - intros k Hw. rewrite forallb_forall in Hc.
    specialize (Hc k (written_in_props so eo k Hw)).
    apply orb_prop in Hc as [Hc|Hc].
    + left. by apply chain_letsb_sound.
    + right. by apply refusedb_sound.
Qed.

(** ** Anatomy of a returning call, whatever code runs *)

Lemma get_prototype_of_heap r z (h : list object) p h1 :
  get_prototype_of r z h = Normal p h1 -> h1 = h.
Proof.
  unfold get_prototype_of. destruct z as [| |n|s|l]; try congruence.
  destruct (h !! l); congruence.
Qed.

Lemma object_create_Normal p (h : list object) t h1 :
  object_create p h = Normal t h1 ->
  t = length h /\ h1 = h ++ [Obj p true [] NotCallable].
Proof. unfold object_create. destruct p; intros H; by simplify_eq. Qed.

(** A call that returns returns the object it allocated, frozen. *)
Lemma extendZod_Normal_inv r extensions z (h : list object) res h' :
  extendZod r extensions z h = Normal res h' ->
  res = VRef (length h)
  /\ exists o, h' !! length h = Some o /\ is_frozen o = true.
Proof.
  unfold extendZod. unfold bind at 1.
  destruct (get_prototype_of r z h) as [p h1|e1 h1|] eqn:Hp; [|done..].
  apply get_prototype_of_heap in Hp as ->.
  unfold bind at 1.
  destruct (object_create p h) as [t h1|e1 h1|] eqn:Hc; [|done..].
  apply object_create_Normal in Hc as [-> ->].
  unfold bind at 1.
  destruct (object_assign r (length h) z _) as [[] h2|e2 h2|]; [|done..].
  unfold bind at 1.
  destruct (object_entries r extensions h2) as [es h3|e3 h3|]; [|done..].
  unfold bind at 1.
  destruct (overlay r (length h) es h3) as [[] h4|e4 h4|]; [|done..].
  unfold object_freeze.
  destruct (h4 !! length h) as [o|] eqn:Ho; [|done].
  intros [= <- <-]. split; [done|]. exists (freeze_object o). split.
  - apply list_lookup_insert_eq. by eapply lookup_lt_Some.
  - apply is_frozen_freeze.
Qed.

(** ** The function [createExtendZod] returns *)

Lemma function_objects_lookup r c (h : list object) :
  exists fo,
    (h ++ function_objects r c (length h)) !! length h = Some fo
    /\ call fo = c
    /\ proto fo = VRef (FunctionPrototype r)
    /\ extensible fo = true
    /\ props fo =
         [(KStr "length", Data (VNum 1) false false true);
          (KStr "name", Data (VStr "extendZod") false false true);
          (KStr "prototype", Data (VRef (S (length h))) true false false)].
Proof.
  eexists. split.
  - rewrite lookup_app_r by done. rewrite Nat.sub_diag. reflexivity.
  - done.
Qed.

Lemma index_create r extensions (h : list object) :
  Index.createExtendZod r extensions h
  = Normal (VRef (length h))
           (h ++ function_objects r (ExtendZodClosure extensions) (length h))
  /\ is_apply_fn (h ++ function_objects r (ExtendZodClosure extensions) (length h))
                 (length h) extensions.
Proof.
  split; [done|].
  destruct (function_objects_lookup r (ExtendZodClosure extensions) h)
    as (fo & Hfo & Hc & _).
  by exists fo.
Qed.

(** The revision with the attachment, when no setter and no read-only
    property waits for the symbol on the chain of [Function.prototype]:
    the function gets one more own property. *)
Lemma meta_create r extensions (h : list object) :
  find_prop (length h) h (VRef (FunctionPrototype r))
            (OBJECT_EXTEND_FUNCTION_ENTRIES r) = Absent ->
  exists fo h',
    Meta.createExtendZod r extensions h = Normal (VRef (length h)) h'
    /\ length h' = S (S (length h))
    /\ (forall l, l < length h -> h' !! l = h !! l)
    /\ h' !! length h = Some fo
    /\ call fo = ExtendZodClosure extensions
    /\ proto fo = VRef (FunctionPrototype r)
    /\ props fo =
         [(KStr "length", Data (VNum 1) false false true);
          (KStr "name", Data (VStr "extendZod") false false true);
          (KStr "prototype", Data (VRef (S (length h))) true false false);
          (OBJECT_EXTEND_FUNCTION_ENTRIES r, Data extensions true true true)].
Proof.
  intros Habs.
  set (k := OBJECT_EXTEND_FUNCTION_ENTRIES r) in *.
  set (h1 := h ++ function_objects r (ExtendZodClosure extensions) (length h)).
  destruct (function_objects_lookup r (ExtendZodClosure extensions) h)
    as (fo & Hfo & Hc & Hp & He & Hps).
  fold h1 in Hfo.
  assert (Hlen : length h1 = S (S (length h))).
  { unfold h1. rewrite length_app. simpl. lia. }
  assert (Hown : own_prop fo k = None).
  { unfold own_prop. rewrite Hps. reflexivity. }
  assert (Hfind : find_prop (length h1) h1 (VRef (length h)) k = Absent).
  { rewrite Hlen, find_prop_S, Hfo, Hown, Hp.
    rewrite (find_prop_more_fuel h1 (length h)); [| |lia];
      unfold h1; rewrite find_prop_app; congruence. }
  exists (set_props fo (props fo ++ [(k, Data extensions true true true)])).
  exists (<[length h :=
             set_props fo (props fo ++ [(k, Data extensions true true true)])]> h1).
  split.
  { unfold Meta.createExtendZod, bind, new_function, ret. fold h1. fold k.
    unfold ordinary_set. by rewrite Hfo, Hfind, Hown, He. }
  split; [by rewrite length_insert|].
  split.
  { intros l Hl. rewrite list_lookup_insert_ne by lia.
    unfold h1. by rewrite lookup_app_l. }
  split; [apply list_lookup_insert_eq; lia|].
  split; [done|]. split; [done|]. simpl. by rewrite Hps.
Qed.

(** ** A quiet call, seen from the caller *)

Lemma lookup_result (h : list object) o : (h ++ [o]) !! length h = Some o.
Proof. rewrite lookup_app_r by done. by rewrite Nat.sub_diag. Qed.

Lemma own_at_result (h : list object) o k :
  own_at (h ++ [o]) (length h) k = own_prop o k.
Proof. unfold own_at. by rewrite lookup_result. Qed.




Lemma apply_quiet r (h : list object) f e b eo so :
  is_apply_fn h f (VRef e) ->
  h !! e = Some eo -> h !! b = Some so -> quiet h so eo ->
  exists o',
    call_function r (VRef f) (VRef b) h = Normal (VRef (length h)) (h ++ [o'])
    /\ proto o' = proto so /\ is_frozen o' = true
    /\ forall k, own_prop o' k = layered so eo k.
Proof.
  intros Hf He Hb Hq. rewrite (call_function_apply r h f _ _ Hf).
  by apply extendZod_quiet.
Qed.

(** * Properties of the specification *)













(** C5, immutability: the code against the claim, at
    [class B { set custom(_) {} }], [base = new B()], [E = { custom: fnC }].
    The returned object is frozen, yet the assignment
    [extendedZ.custom = fnB] on it does not throw: the overlay handed
    [custom] to the inherited setter, so the result never owned [custom],
    and the assignment runs that setter again. *)
Theorem frozen_result_assignment_need_not_throw :
  exists h' o,
    call_function Sample.rlm (VRef 9) (VRef 7) Sample.with_setter
    = Normal (VRef 11) h'
    /\ h' !! 11 = Some o /\ is_frozen o = true
    /\ own_prop o (KStr "custom") = None
    /\ ordinary_set Sample.rlm 11 (KStr "custom") (VRef 4) h' = Normal tt h'.
Proof.
  do 2 eexists. split; [vm_compute; reflexivity|].
  split; [reflexivity|]. split; [reflexivity|]. split; reflexivity.
Qed.

(** C6, the metadata channel, as amended.  The revision of index.ts with
    the attachment (src/unnamed/part_000), when nothing on the prototype
    chain of [Function.prototype] is defined under the reserved symbol:
    [createExtendZod(E)] returns a new function, closed over [E], that has
    an own property under that symbol, a key that is not a string; the
    property is an ENUMERABLE, writable and configurable data property,
    and its value is the reference [E] itself, so the mapping read through
    it is the caller's map, which the call left as it was.  In
    src/index.ts the function has no such property. *)
Theorem metadata_channel r extensions (h : list object) :
  find_prop (length h) h (VRef (FunctionPrototype r))
            (OBJECT_EXTEND_FUNCTION_ENTRIES r) = Absent ->
  (exists h',
     Meta.createExtendZod r extensions h = Normal (VRef (length h)) h'
     /\ is_apply_fn h' (length h) extensions
     /\ is_string_key (OBJECT_EXTEND_FUNCTION_ENTRIES r) = false
     /\ own_at h' (length h) (OBJECT_EXTEND_FUNCTION_ENTRIES r)
        = Some (Data extensions true true true)
     /\ get r (length h) (OBJECT_EXTEND_FUNCTION_ENTRIES r) h'
        = Normal extensions h'
     /\ (forall l, l < length h -> h' !! l = h !! l))
  /\ (exists h',
        Index.createExtendZod r extensions h = Normal (VRef (length h)) h'
        /\ is_apply_fn h' (length h) extensions
        /\ own_at h' (length h) (OBJECT_EXTEND_FUNCTION_ENTRIES r) = None).
Proof.
  intros Habs. split.
  - destruct (meta_create r extensions h Habs)
      as (fo & h' & Hrun & Hlen & Hold & Hfo & Hc & Hp & Hps).
    assert (Hown : own_prop fo (OBJECT_EXTEND_FUNCTION_ENTRIES r)
                   = Some (Data extensions true true true)).
    { unfold own_prop. rewrite Hps. unfold OBJECT_EXTEND_FUNCTION_ENTRIES. simpl.
      by rewrite Nat.eqb_refl. }
    exists h'. split; [done|]. split; [by exists fo|]. split; [done|].
    split; [unfold own_at; by rewrite Hfo|]. split; [|done].
    by eapply get_own_data.
  - destruct (index_create r extensions h) as [Hrun Hf].
    eexists. split; [done|]. split; [done|].
    destruct (function_objects_lookup r (ExtendZodClosure extensions) h)
      as (fo & Hfo & _ & _ & _ & Hps).
    unfold own_at. rewrite Hfo. unfold own_prop. by rewrite Hps.
Qed.

Lemma metadata_channel_witness :
  exists h',
    Meta.createExtendZod Sample.rlm (VRef 8) Sample.before_create
    = Normal (VRef 9) h'
    /\ get Sample.rlm 9 (OBJECT_EXTEND_FUNCTION_ENTRIES Sample.rlm) h'
       = Normal (VRef 8) h'
    /\ h' !! 8 = Sample.before_create !! 8.
Proof.
  destruct (metadata_channel Sample.rlm (VRef 8) Sample.before_create)
    as [(h' & Hrun & _ & _ & _ & Hget & Hold) _].
  - reflexivity.
  - exists h'. split; [exact Hrun|]. split; [exact Hget|].
    apply Hold. vm_compute. lia.
Defined.

(** C6 as stated fails: the attachment is made by plain assignment, which
    creates an enumerable property. *)
Lemma metadata_attachment_is_enumerable :
  exists h' d,
    Meta.createExtendZod Sample.rlm (VRef 8) Sample.before_create
    = Normal (VRef 9) h'
    /\ own_at h' 9 (OBJECT_EXTEND_FUNCTION_ENTRIES Sample.rlm) = Some d
    /\ enumerable_of d = true.
Proof.
  do 2 eexists. split; [vm_compute; reflexivity|]. split; reflexivity.
Qed.

(** C7, prototype preservation: the code against the claim, at
    [base = { string: fnC }] and [E = { ["__proto__"]: fnC }].  The overlay
    assigns [extendedZ["__proto__"] = fnC] with [[Set]], which reaches the
    [__proto__] setter of [Object.prototype]: the prototype of the
    returned object is fnC, not [Object.getPrototypeOf(base)], and the
    object has no own property [__proto__]. *)
Theorem prototype_replaced_by_proto_key :
  proto_at Sample.proto_key_extension 5 = Some (VRef 0)
  /\ own_at Sample.proto_key_extension 6 (KStr "__proto__")
     = Some (Sample.field (VRef 4))
  /\ exists h',
       call_function Sample.rlm (VRef 7) (VRef 5) Sample.proto_key_extension
       = Normal (VRef 9) h'
       /\ proto_at h' 9 = Some (VRef 4)
       /\ own_at h' 9 (KStr "__proto__") = None.
Proof.
  split; [reflexivity|]. split; [reflexivity|].
  eexists. split; [vm_compute; reflexivity|]. split; reflexivity.
Qed.

(** C8, as amended.  Called with a null base, [applyFn] throws at once,
    with the heap untouched; the error is the TypeError that
    [Object.getPrototypeOf(null)] raises, the function having no argument
    check of its own. *)
Theorem null_base_throws r (h : list object) f extensions :
  is_apply_fn h f extensions ->
  call_function r (VRef f) VNull h = Throw (TypeError InGetPrototypeOf) h.
Proof. intros Hf. by rewrite (call_function_apply r h f _ _ Hf). Qed.

Lemma null_base_throws_witness :
  call_function Sample.rlm (VRef 9) VNull Sample.plain
  = Throw (TypeError InGetPrototypeOf) Sample.plain.
Proof.
  apply (null_base_throws Sample.rlm Sample.plain 9 (VRef 8)).
  eexists. split; reflexivity.
Defined.

(** C8 as stated fails: the error a null base raises is not an
    invalid-argument error of the function's own but the fault of the
    prototype read. *)
Lemma null_base_error_is_internal_fault :
  ~ exists e h',
      call_function Sample.rlm (VRef 9) VNull Sample.plain = Throw e h'
      /\ is_argument_error e = true.
Proof. intros (e & h' & Hrun & Harg). vm_compute in Hrun. by simplify_eq. Qed.







(** * Further properties of the code *)

(** ** Shape of the result *)

(** X1, the result is an overlay over a copy.  In a call [applyFn(base)]
    in which no user code runs and no assignment is refused (the own
    enumerable properties of [base] and the own enumerable string-keyed
    properties of [E] are data properties, and the prototype chain of
    [base] holds nothing or a writable data property under every written
    key), the call returns a new object and leaves every other object as
    it was: the new object has the prototype of [base], is not extensible,
    and its own property under every key is the value of [E] for an own
    enumerable string key of [E], otherwise the value of [base] for an own
    enumerable key of [base], otherwise nothing. *)
Theorem result_is_overlay_over_copy r (h : list object) f e b eo so :
  is_apply_fn h f (VRef e) ->
  h !! e = Some eo -> h !! b = Some so ->
  quiet h so eo ->
  exists o',
    call_function r (VRef f) (VRef b) h = Normal (VRef (length h)) (h ++ [o'])
    /\ proto o' = proto so /\ extensible o' = false
    /\ forall k, own_prop o' k = layered so eo k.
Proof.
  intros Hf He Hb Hq.
  destruct (apply_quiet r h f e b eo so Hf He Hb Hq) as (o' & Hrun & Hp & Hfr & Hown).
  exists o'. split; [done|]. split; [done|]. split; [|done].
  by apply frozen_not_extensible.
Qed.

Lemma result_is_overlay_over_copy_witness :
  exists o',
    call_function Sample.rlm (VRef 9) (VRef 7) Sample.collision
    = Normal (VRef 11) (Sample.collision ++ [o'])
    /\ own_prop o' (KStr "custom") = Some (Data (VRef 6) false true false)
    /\ own_prop o' (KStr "number") = Some (Data (VRef 5) false true false)
    /\ own_prop o' (KStr "string") = None.
Proof.
  destruct (result_is_overlay_over_copy Sample.rlm Sample.collision 9 8 7
              Sample.ext_obj Sample.collision_base)
    as (o' & Hrun & _ & _ & Hown).
  - eexists. split; reflexivity.
  - reflexivity.
  - reflexivity.
  - apply quietb_sound. reflexivity.
  - exists o'. split; [exact Hrun|]. rewrite !Hown. repeat split; reflexivity.
Defined.

(** ** Freshness *)

Lemma call_function_Normal_inv r f z (h : list object) res h' :
  call_function r f z h = Normal res h' ->
  res = VRef (length h)
  /\ exists o, h' !! length h = Some o /\ is_frozen o = true.
Proof.
  unfold call_function. destruct f as [| | | |l]; try done.
  destruct (h !! l) as [o|]; [|done]. destruct (call o); try done.
  apply extendZod_Normal_inv.
Qed.

(** X3, freshness.  Each returning call allocates its result: the object
    is at a location the heap did not have before the call, so it is none
    of [base], [E] and [applyFn]; two successive calls return two
    different objects, and the second call leaves the first result as it
    was. *)
Theorem results_are_fresh r (h : list object) f e b eo so r1 h1 r2 h2 :
  is_apply_fn h f (VRef e) ->
  h !! e = Some eo -> h !! b = Some so ->
  call_function r (VRef f) (VRef b) h = Normal r1 h1 ->
  call_function r (VRef f) (VRef b) h1 = Normal r2 h2 ->
  exists t1 t2, r1 = VRef t1 /\ r2 = VRef t2
    /\ h !! t1 = None /\ h1 !! t2 = None
    /\ t1 <> t2 /\ t1 <> b /\ t1 <> e /\ t1 <> f
    /\ h2 !! t1 = h1 !! t1 /\ is_Some (h1 !! t1).
Proof.
  intros Hf He Hb Hrun1 Hrun2.
  destruct (call_function_Normal_inv _ _ _ _ _ _ Hrun1) as (-> & o1 & Ho1 & Hfr1).
  destruct (call_function_Normal_inv _ _ _ _ _ _ Hrun2) as (-> & _).
  assert (Hk : keeps_frozen h1 h2).
  { apply (call_function_keeps_frozen r (VRef f) (VRef b)). by rewrite Hrun2. }
  destruct Hf as (fo & Hfo & _).
  apply lookup_lt_Some in Hb, He, Hfo.
  pose proof (lookup_lt_Some _ _ _ Ho1) as Hlt.
  exists (length h), (length h1).
  split; [done|]. split; [done|].
  split; [by apply lookup_ge_None_2|]. split; [by apply lookup_ge_None_2|].
  split; [lia|]. split; [lia|]. split; [lia|]. split; [lia|].
  split; [|by exists o1]. rewrite Ho1. by apply Hk.
Qed.

Lemma results_are_fresh_witness :
  exists t1 t2 h1 h2,
    call_function Sample.rlm (VRef 9) (VRef 7) Sample.plain = Normal (VRef t1) h1
    /\ call_function Sample.rlm (VRef 9) (VRef 7) h1 = Normal (VRef t2) h2
    /\ t1 <> t2 /\ h2 !! t1 = h1 !! t1.
Proof.
  destruct (call_function Sample.rlm (VRef 9) (VRef 7) Sample.plain)
    as [r1 h1| |] eqn:Hrun1; [|by vm_compute in Hrun1..].
  destruct (call_function Sample.rlm (VRef 9) (VRef 7) h1)
    as [r2 h2| |] eqn:Hrun2;
    [|vm_compute in Hrun1; injection Hrun1 as <- <-; by vm_compute in Hrun2..].
  destruct (results_are_fresh Sample.rlm Sample.plain 9 8 7
              Sample.ext_obj Sample.base_obj r1 h1 r2 h2)
    as (t1 & t2 & -> & -> & _ & _ & Hne & _ & _ & _ & Hsame & _).
  - eexists. split; reflexivity.
  - reflexivity.
  - reflexivity.
  - exact Hrun1.
  - exact Hrun2.
  - exists t1, t2, h1, h2. split; [reflexivity|]. split; [exact Hrun2|].
    split; [exact Hne|exact Hsame].
Defined.

(** ** A map that is not an object *)

(** The first two steps of a call whose base has no getter among its
    enumerable properties and whose copied keys the chain lets through:
    the rest of the call runs in the heap with the copy added. *)
Lemma copy_phase r (h : list object) b so :
  h !! b = Some so ->
  proto so = VNull \/ (exists p, proto so = VRef p) ->
  data_only false so ->
  (forall k v, copy_value so k = Some v -> chain_lets h (proto so) k) ->
  exists oA,
    proto oA = proto so
    /\ forall extensions,
         extendZod r extensions (VRef b) h =
         (letM es := object_entries r extensions in
          doM overlay r (length h) es in
          object_freeze (VRef (length h))) (h ++ [oA]).
Proof.
  intros Hb Hproto Hdb Hchain.
  set (t := length h).
  set (h1 := h ++ [Obj (proto so) true [] NotCallable]).
  assert (Hcreate : object_create (proto so) h = Normal t h1).
  { unfold object_create, h1, t.
    destruct Hproto as [E|[p E]]; rewrite E; reflexivity. }
  pose proof (uc_after_create h (proto so)) as Huc1. fold t h1 in Huc1.
  assert (Hp1 : proto_at h1 t = Some (proto so)).
  { unfold proto_at, h1, t. by rewrite lookup_result. }
  assert (Hbt : b < t) by (by eapply lookup_lt_Some).
  destruct (overlay_lets r h t (copy_value so) (own_keys so) h1 (proto so) Huc1 Hp1)
    as (hA & HovA & HucA & HpA & _).
  { intros k v _ Hv. by eapply Hchain. }
  destruct (uc_app h t hA HucA) as (oA & -> & _).
  exists oA. split.
  { unfold proto_at, t in HpA. rewrite lookup_result in HpA. congruence. }
  intros extensions. unfold extendZod. unfold bind at 1.
  unfold get_prototype_of. rewrite Hb. unfold bind at 1. rewrite Hcreate.
  unfold bind at 1. unfold object_assign.
  assert (h1 !! b = Some so) as -> by (by apply lookup_app_l_Some).
  rewrite (assign_keys_overlay r h t b so (own_keys so) h1 (proto so)); try done.
  - by rewrite HovA.
  - intros k _. unfold own_at, h1, t. by rewrite lookup_result.
  - intros k v _ Hv. left. by eapply Hchain.
Qed.

(** X6, a map that is null or undefined.  [createExtendZod] accepts it
    and returns a function; the fault surfaces at the first call.  For a
    base without getters among its own enumerable properties, whose
    prototype chain lets the copied keys through, the call copies [base]
    and then throws the TypeError of [Object.entries], leaving every
    object as it was. *)
Theorem missing_map_fails_at_apply_time r ext b so (h0 : list object) :
  ext = VNull \/ ext = VUndef ->
  h0 !! b = Some so ->
  proto so = VNull \/ (exists p, proto so = VRef p) ->
  data_only false so ->
  (forall k v, copy_value so k = Some v -> chain_lets h0 (proto so) k) ->
  exists h1 h',
    Index.createExtendZod r ext h0 = Normal (VRef (length h0)) h1
    /\ call_function r (VRef (length h0)) (VRef b) h1
       = Throw (TypeError InObjectEntries) h'
    /\ keeps_objects h0 h'.
Proof.
  intros Hext Hb Hproto Hdb Hchain.
  destruct (index_create r ext h0) as [Hcreate Hf].
  set (h1 := h0 ++ function_objects r (ExtendZodClosure ext) (length h0)) in *.
  destruct (copy_phase r h1 b so) as (oA & _ & Hrest); try done.
  { by apply lookup_app_l_Some. }
  { intros k v Hv. apply chain_lets_grown. by eapply Hchain. }
  exists h1, (h1 ++ [oA]). split; [done|]. split.
  - rewrite (call_function_apply r h1 _ _ _ Hf), Hrest. unfold bind.
    by destruct Hext as [-> | ->].
  - intros l o Hl. by apply lookup_app_l_Some, lookup_app_l_Some.
Qed.

Lemma missing_map_fails_at_apply_time_witness :
  exists h1 h',
    Index.createExtendZod Sample.rlm VNull Sample.before_create
    = Normal (VRef 9) h1
    /\ call_function Sample.rlm (VRef 9) (VRef 7) h1
       = Throw (TypeError InObjectEntries) h'
    /\ h' !! 7 = Some Sample.base_obj.
Proof.
  destruct (missing_map_fails_at_apply_time Sample.rlm VNull 7 Sample.base_obj
              Sample.before_create)
    as (h1 & h' & Hc & Hrun & Hk).
  - by left.
  - reflexivity.
  - right. by exists 0.
  - apply data_onlyb_sound. reflexivity.
  - intros k v Hk. apply chain_letsb_sound.
    apply copy_value_Some in Hk as (w & c & Hk).
    apply lookup_key_Some_in in Hk. simpl in Hk.
    destruct Hk as [<-|[<-|[]]]; reflexivity.
  - exists h1, h'. split; [exact Hc|]. split; [exact Hrun|].
    apply Hk. reflexivity.
Defined.

(** ** Members inherited from the prototype *)

(** X7, inherited data members stay reachable.  In a call in which no
    user code runs and no assignment is refused, a data property that
    [base] inherits (a method of its class, say), and that the overlay
    does not write, is not copied: the returned object reads it through
    the prototype it shares with [base], and yields the value [base]
    yields. *)
Theorem inherited_members_reachable
    r (h : list object) f e b eo so k v w en c :
  is_apply_fn h f (VRef e) ->
  h !! e = Some eo -> h !! b = Some so ->
  quiet h so eo ->
  own_prop so k = None -> ~ overlaid eo k ->
  find_prop (length h) h (proto so) k = Found (Data v w en c) ->
  exists t h',
    call_function r (VRef f) (VRef b) h = Normal (VRef t) h'
    /\ own_at h' t k = None
    /\ get r t k h' = Normal v h'
    /\ get r b k h' = Normal v h'.
Proof.
  intros Hf He Hb Hq Hnone Hno Hfind.
  destruct (apply_quiet r h f e b eo so Hf He Hb Hq) as (o' & Hrun & Hp & _ & Hown).
  assert (Hnot : own_prop o' k = None).
  { rewrite Hown. unfold layered, copy_value.
    by rewrite (not_overlaid_value eo k Hno), Hnone. }
  assert (Hlen : length (h ++ [o']) = S (length h)).
  { rewrite length_app. simpl. lia. }
  assert (Hchain : find_prop (length h) (h ++ [o']) (proto so) k
                   = Found (Data v w en c)).
  { rewrite find_prop_app; [done|congruence]. }
  exists (length h), (h ++ [o']). split; [done|]. split; [|split].
  - by rewrite own_at_result.
  - unfold get. by rewrite Hlen, find_prop_S, lookup_result, Hnot, Hp, Hchain.
  - unfold get. rewrite Hlen, find_prop_S, (lookup_app_l_Some _ _ _ _ Hb), Hnone.
    by rewrite Hchain.
Qed.

Lemma inherited_members_reachable_witness :
  exists t h',
    call_function Sample.rlm (VRef 10) (VRef 8) Sample.with_method
    = Normal (VRef t) h'
    /\ own_at h' t (KStr "parse") = None
    /\ get Sample.rlm t (KStr "parse") h' = Normal (VRef 4) h'.
Proof.
  destruct (inherited_members_reachable Sample.rlm Sample.with_method 10 9 8
              Sample.ext_obj Sample.method_base (KStr "parse")
              (VRef 4) true false true)
    as (t & h' & Hrun & Hown & Hget & _).
  - eexists. split; reflexivity.
  - reflexivity.
  - reflexivity.
  - apply quietb_sound. reflexivity.
  - reflexivity.
  - intros (_ & d & Hd & _). vm_compute in Hd. discriminate Hd.
  - reflexivity.
  - exists t, h'. split; [exact Hrun|]. split; [exact Hown|exact Hget].
Defined.

(** X8, hidden own members are dropped.  In a call in which no user code
    runs and no assignment is refused, an own property of [base] that is
    not enumerable is not copied: unless the overlay writes the key, the
    returned object does not own it, although [base] does. *)
Theorem non_enumerable_own_property_dropped
    r (h : list object) f e b eo so k d :
  is_apply_fn h f (VRef e) ->
  h !! e = Some eo -> h !! b = Some so ->
  quiet h so eo ->
  own_prop so k = Some d -> enumerable_of d = false -> ~ overlaid eo k ->
  exists t h',
    call_function r (VRef f) (VRef b) h = Normal (VRef t) h'
    /\ own_at h' t k = None
    /\ own_at h' b k = Some d.
Proof.
  intros Hf He Hb Hq Hd Hen Hno.
  destruct (apply_quiet r h f e b eo so Hf He Hb Hq) as (o' & Hrun & _ & _ & Hown).
  exists (length h), (h ++ [o']). split; [done|]. split.
  - rewrite own_at_result, Hown. unfold layered, copy_value.
    rewrite (not_overlaid_value eo k Hno), Hd.
    by destruct d as [v w [] c|g s [] c].
  - unfold own_at. by rewrite (lookup_app_l_Some _ _ _ _ Hb).
Qed.

Lemma non_enumerable_own_property_dropped_witness :
  exists t h',
    call_function Sample.rlm (VRef 9) (VRef 7) Sample.with_hidden
    = Normal (VRef t) h'
    /\ own_at h' t (KStr "secret") = None
    /\ own_at h' 7 (KStr "secret") = Some (Data (VRef 5) false false false).
Proof.
  destruct (non_enumerable_own_property_dropped Sample.rlm Sample.with_hidden
              9 8 7 Sample.ext_obj Sample.hidden_base (KStr "secret")
              (Data (VRef 5) false false false))
    as (t & h' & Hrun & Hown & Hbase).
  - eexists. split; reflexivity.
  - reflexivity.
  - reflexivity.
  - apply quietb_sound. reflexivity.
  - reflexivity.
  - reflexivity.
  - intros (_ & d & Hd & _). vm_compute in Hd. discriminate Hd.
  - exists t, h'. split; [exact Hrun|]. split; [exact Hown|exact Hbase].
Defined.

(** ** Reading the attached map back *)

(** X11, the attached map round-trips.  In a realm where nothing on the
    chain of [Function.prototype] is defined under the reserved symbol,
    the value read from the function under that symbol is the map given
    to [createExtendZod]; a function made anew from that value is another
    function object, and on every argument it does what the first does. *)
Theorem metadata_round_trip r extensions (h : list object) :
  find_prop (length h) h (VRef (FunctionPrototype r))
            (OBJECT_EXTEND_FUNCTION_ENTRIES r) = Absent ->
  exists f h1 g h2,
    Meta.createExtendZod r extensions h = Normal (VRef f) h1
    /\ get r f (OBJECT_EXTEND_FUNCTION_ENTRIES r) h1 = Normal extensions h1
    /\ Meta.createExtendZod r extensions h1 = Normal (VRef g) h2
    /\ g <> f
    /\ forall z, call_function r (VRef g) z h2 = call_function r (VRef f) z h2.
Proof.
  intros Habs.
  destruct (meta_create r extensions h Habs)
    as (fo & h1 & Hc1 & Hlen1 & Hold1 & Hfo & Hcall & _ & Hps).
  assert (Happ : exists os, h1 = h ++ os).
  { exists (drop (length h) h1). rewrite <- (take_drop (length h) h1) at 1.
    f_equal. apply list_eq. intros i.
    destruct (decide (i < length h)) as [Hi|Hi].
    - rewrite lookup_take_lt by done. by apply Hold1.
    - rewrite lookup_take_ge by lia. symmetry. apply lookup_ge_None_2. lia. }
  destruct Happ as [os Happ].
  assert (Habs1 : find_prop (length h1) h1 (VRef (FunctionPrototype r))
                    (OBJECT_EXTEND_FUNCTION_ENTRIES r) = Absent).
  { rewrite Happ, find_prop_grown; [done|congruence]. }
  destruct (meta_create r extensions h1 Habs1)
    as (go & h2 & Hc2 & Hlen2 & Hold2 & Hgo & Hgcall & _).
  exists (length h), h1, (length h1), h2.
  split; [done|]. split.
  { eapply get_own_data; [done|]. unfold own_prop. rewrite Hps.
    unfold OBJECT_EXTEND_FUNCTION_ENTRIES. simpl. by rewrite Nat.eqb_refl. }
  split; [done|]. split; [lia|].
  intros z.
  assert (Hg : is_apply_fn h2 (length h1) extensions) by (by exists go).
  assert (Hf2 : is_apply_fn h2 (length h) extensions).
  { exists fo. split; [|done]. rewrite Hold2; [done|lia]. }
  by rewrite (call_function_apply r h2 _ _ z Hg),
             (call_function_apply r h2 _ _ z Hf2).
Qed.

Lemma metadata_round_trip_witness :
  exists h1 g h2,
    Meta.createExtendZod Sample.rlm (VRef 8) Sample.before_create
    = Normal (VRef 9) h1
    /\ get Sample.rlm 9 (OBJECT_EXTEND_FUNCTION_ENTRIES Sample.rlm) h1
       = Normal (VRef 8) h1
    /\ Meta.createExtendZod Sample.rlm (VRef 8) h1 = Normal (VRef g) h2
    /\ call_function Sample.rlm (VRef g) (VRef 7) h2
       = call_function Sample.rlm (VRef 9) (VRef 7) h2.
Proof.
  destruct (metadata_round_trip Sample.rlm (VRef 8) Sample.before_create)
    as (f & h1 & g & h2 & Hc1 & Hget & Hc2 & _ & Hsame).
  - reflexivity.
  - assert (Hf : f = 9).
    { vm_compute in Hc1. by injection Hc1 as <- _. }
    subst f. exists h1, g, h2. split; [exact Hc1|]. split; [exact Hget|].
    split; [exact Hc2|apply Hsame].
Defined.

(** ** The empty map *)

(** X12, the empty map.  For a map without own enumerable string keys
    (as [{}]) and a base without getters among its own enumerable
    properties, whose prototype chain holds nothing or a writable data
    property under every copied key, the call returns a frozen shallow
    copy of [base]: a new object with the prototype of [base] holding
    exactly the own enumerable properties of [base], with the values
    [base] has. *)
Theorem empty_map_gives_frozen_copy r (h : list object) f e b eo so :
  is_apply_fn h f (VRef e) ->
  h !! e = Some eo -> h !! b = Some so ->
  (forall k, ~ overlaid eo k) ->
  quiet h so eo ->
  exists t o',
    call_function r (VRef f) (VRef b) h = Normal (VRef t) (h ++ [o'])
    /\ t = length h /\ t <> b
    /\ proto o' = proto so /\ is_frozen o' = true
    /\ forall k, own_prop o' k =
                 match copy_value so k with
                 | Some v => Some (Data v false true false)
                 | None => None
                 end.
Proof.
  intros Hf He Hb Hempty Hq.
  destruct (apply_quiet r h f e b eo so Hf He Hb Hq) as (o' & Hrun & Hp & Hfr & Hown).
  exists (length h), o'. split; [done|]. split; [done|].
  split; [apply lookup_lt_Some in Hb; lia|]. split; [done|]. split; [done|].
  intros k. rewrite Hown. unfold layered.
  by rewrite (not_overlaid_value eo k (Hempty k)).
Qed.

Lemma empty_map_gives_frozen_copy_witness :
  exists t o',
    call_function Sample.rlm (VRef 9) (VRef 7) Sample.with_empty_map
    = Normal (VRef t) (Sample.with_empty_map ++ [o'])
    /\ is_frozen o' = true
    /\ own_prop o' (KStr "string") = Some (Data (VRef 4) false true false)
    /\ own_prop o' (KStr "number") = Some (Data (VRef 5) false true false)
    /\ own_prop o' (KStr "custom") = None.
Proof.
  destruct (empty_map_gives_frozen_copy Sample.rlm Sample.with_empty_map 9 8 7
              Sample.empty_ext Sample.base_obj)
    as (t & o' & Hrun & _ & _ & _ & Hfrozen & Hown).
  - eexists. split; reflexivity.
  - reflexivity.
  - reflexivity.
  - intros k (_ & d & Hd & _). discriminate Hd.
  - apply quietb_sound. reflexivity.
  - exists t, o'. split; [exact Hrun|].
    split; [exact Hfrozen|]. rewrite !Hown. repeat split; reflexivity.
Defined.

(** ** The result is frozen, whatever code ran *)

(** X13, what freezing gives.  Whatever getters and setters ran during a
    returning call, the returned object is frozen: assigning to a data
    property it owns throws a TypeError and changes nothing; assigning to
    a key it does not own throws as well, unless the assignment reaches a
    setter; and no assignment on it, throwing or not, changes the
    object. *)
Theorem result_rejects_writes r (h : list object) f z res h' :
  call_function r (VRef f) z h = Normal res h' ->
  exists t o,
    res = VRef t /\ h' !! t = Some o /\ is_frozen o = true
    /\ (forall k v0 w e c v,
          own_prop o k = Some (Data v0 w e c) ->
          ordinary_set r t k v h' = Throw (TypeError (InSet k)) h')
    /\ (forall k v,
          own_prop o k = None -> ~ reaches_setter h' t k ->
          find_prop (length h') h' (VRef t) k <> Broken ->
          ordinary_set r t k v h' = Throw (TypeError (InSet k)) h')
    /\ (forall k v h'',
          heap_of (ordinary_set r t k v h') = Some h'' -> h'' !! t = Some o).
Proof.
  intros Hrun.
  destruct (call_function_Normal_inv _ _ _ _ _ _ Hrun) as (-> & o & Ho & Hfr).
  exists (length h), o. do 3 (split; [done|]). split; [|split].
  - intros k v0 w e c v Hk.
    destruct (frozen_own_data o k v0 w e c Hfr Hk) as [-> ->].
    destruct (lookup_Some_length _ _ _ Ho) as [n Hn].
    unfold ordinary_set. by rewrite Ho, Hn, (find_prop_own n _ _ _ _ _ Ho Hk).
  - intros k v Hk Hns Hok. unfold ordinary_set. rewrite Ho.
    destruct (find_prop (length h') h' (VRef (length h)) k)
      as [[v0 [] e c|g [s|] e c]| |] eqn:Hfind; try done.
    + by rewrite Hk, (frozen_not_extensible o Hfr).
    + destruct Hns. by exists g, s, e, c.
    + by rewrite Hk, (frozen_not_extensible o Hfr).
  - intros k v h'' Hset.
    by apply (ordinary_set_keeps_frozen r _ k v h' h'' Hset).
Qed.

Lemma result_rejects_writes_witness :
  exists t h',
    call_function Sample.rlm (VRef 9) (VRef 7) Sample.plain = Normal (VRef t) h'
    /\ ordinary_set Sample.rlm t (KStr "custom") (VRef 4) h'
       = Throw (TypeError (InSet (KStr "custom"))) h'
    /\ ordinary_set Sample.rlm t (KStr "string") (VRef 5) h'
       = Throw (TypeError (InSet (KStr "string"))) h'
    /\ ordinary_set Sample.rlm t (KStr "newProperty") (VNum 1) h'
       = Throw (TypeError (InSet (KStr "newProperty"))) h'.
Proof.
  destruct (call_function Sample.rlm (VRef 9) (VRef 7) Sample.plain)
    as [res h'| |] eqn:Hrun; [|by vm_compute in Hrun..].
  destruct (result_rejects_writes Sample.rlm Sample.plain 9 (VRef 7) res h')
    as (t & o & -> & Ho & _ & Hown & Hnew & _).
  - exact Hrun.
  - vm_compute in Hrun. injection Hrun as <- <-.
    injection Ho as <-.
    eexists _, _. split; [reflexivity|]. split; [|split].
    + apply (Hown (KStr "custom") (VRef 6) false true false). reflexivity.
    + apply (Hown (KStr "string") (VRef 4) false true false). reflexivity.
    + apply Hnew; [reflexivity| |discriminate].
      intros (g & s & e & c & Hreach). discriminate Hreach.
Defined.



(** ** The keys of the overlay *)





(** ** A key the prototype chain refuses *)

(** X5, a refused key stops the call.  Take a call in which no user code
    runs (the properties read are data properties, and the prototype chain
    of [base] holds no accessor with a setter under a written key).  If
    the chain of [base] holds, under some key that is copied or overlaid,
    a read-only data property or an accessor without setter, the call
    throws the TypeError of the refused assignment, at such a key, and
    leaves every object that existed as it was: the only trace is the
    half-built copy. *)
Theorem apply_throws_on_refused_key r (h : list object) f e b eo so :
  is_apply_fn h f (VRef e) ->
  h !! e = Some eo -> h !! b = Some so ->
  calm h so eo ->
  (exists k, written so eo k /\ refused h (proto so) k) ->
  exists k h',
    call_function r (VRef f) (VRef b) h = Throw (TypeError (InSet k)) h'
    /\ written so eo k /\ refused h (proto so) k
    /\ keeps_objects h h'.
Proof.
  intros Hf He Hb [Hproto Hdb Hde Hchain] (k0 & Hw0 & Href0).
  rewrite (call_function_apply r h f _ _ Hf).
  set (t := length h).
  set (h1 := h ++ [Obj (proto so) true [] NotCallable]).
  assert (Hcreate : object_create (proto so) h = Normal t h1).
  { unfold object_create, h1, t.
    destruct Hproto as [E|[p E]]; rewrite E; reflexivity. }
  pose proof (uc_after_create h (proto so)) as Huc1. fold t h1 in Huc1.
  assert (Hp1 : proto_at h1 t = Some (proto so)).
  { unfold proto_at, h1, t. by rewrite lookup_result. }
  assert (Hun1 : refused_unowned h (proto so) t h1).
  { intros k _. unfold own_at, h1, t. by rewrite lookup_result. }
  assert (Hbt : b < t) by (by eapply lookup_lt_Some).
  assert (Het : e < t) by (by eapply lookup_lt_Some).
  assert (HcalmA : forall k v, In k (own_keys so) -> copy_value so k = Some v ->
            chain_lets h (proto so) k \/ refused h (proto so) k).
  { intros k v _ Hv. apply Hchain. by eapply copy_value_written. }
  assert (HcalmO : forall k v, In k (own_keys eo) -> overlay_value eo k = Some v ->
            chain_lets h (proto so) k \/ refused h (proto so) k).
  { intros k v _ Hv. apply Hchain. by eapply overlay_value_written. }
  assert (Hstart : extendZod r (VRef e) (VRef b) h =
    (doM overlay r t (pairs_of (copy_value so) (own_keys so)) in
     letM es := object_entries r (VRef e) in
     doM overlay r t es in
     object_freeze (VRef t)) h1).
  { unfold extendZod. unfold bind at 1. unfold get_prototype_of. rewrite Hb.
    unfold bind at 1. rewrite Hcreate. unfold bind at 1 3. unfold object_assign.
    assert (h1 !! b = Some so) as -> by (by apply lookup_app_l_Some).
    by rewrite (assign_keys_overlay r h t b so (own_keys so) h1 (proto so)). }
  rewrite Hstart. unfold bind at 1.
  destruct (overlay_calm r h t (copy_value so) (own_keys so) h1 (proto so)
              Huc1 Hp1 Hun1 HcalmA)
    as [(hA & HovA & HucA & HpA & HunA & HallA)|
        (k & v & hA & Hin & Hv & Href & HovA & HucA)].
  2:{ exists k, hA. rewrite HovA. split; [done|].
      split; [by eapply copy_value_written|]. split; [done|by eapply uc_keeps]. }
  rewrite HovA. unfold bind at 1. unfold object_entries.
  assert (HeA : hA !! e = Some eo) by (by rewrite (uc_old _ _ _ HucA e Het)).
  rewrite HeA, (entries_of_pairs r hA e eo (own_keys eo) HeA Hde).
  unfold bind at 1.
  destruct (overlay_calm r h t (overlay_value eo) (own_keys eo) hA (proto so)
              HucA HpA HunA HcalmO)
    as [(hO & HovO & HucO & HpO & HunO & HallO)|
        (k & v & hO & Hin & Hv & Href & HovO & HucO)].
  2:{ exists k, hO. rewrite HovO. split; [done|].
      split; [by eapply overlay_value_written|]. split; [done|by eapply uc_keeps]. }
  exfalso. apply (lets_not_refused h (proto so) k0); [|done].
  destruct (written_value so eo k0 Hdb Hde Hw0) as [[v Hv]|[v Hv]].
  - apply (HallO k0 v); [by eapply overlay_value_in|done].
  - apply (HallA k0 v); [by eapply copy_value_in|done].
Qed.

Lemma apply_throws_on_refused_key_witness :
  exists h',
    call_function Sample.rlm (VRef 10) (VRef 8) Sample.read_only_proto
    = Throw (TypeError (InSet (KStr "custom"))) h'
    /\ h' !! 8 = Some Sample.frozen_proto_base.
Proof.
  destruct (apply_throws_on_refused_key Sample.rlm Sample.read_only_proto 10 9 8
              Sample.ext_obj Sample.frozen_proto_base)
    as (k & h' & Hrun & _ & _ & Hk).
  - eexists. split; reflexivity.
  - reflexivity.
  - reflexivity.
  - apply calmb_sound. reflexivity.
  - exists (KStr "custom"). split.
    + left. split; [reflexivity|]. eexists. split; reflexivity.
    + apply refusedb_sound. reflexivity.
  - exists h'. split; [|apply Hk; reflexivity].
    rewrite Hrun. vm_compute in Hrun. by injection Hrun as <- _.
Defined.

(** ** Extending an extended instance *)

Lemma layered_data so eo k d :
  layered so eo k = Some d -> exists v, d = Data v false true false.
Proof.
  unfold layered.
  destruct (overlay_value eo k); [intros [= <-]; eauto|].
  destruct (copy_value so k); [intros [= <-]; eauto|done].
Qed.

Lemma layered_written so eo k d : layered so eo k = Some d -> written so eo k.
Proof.
  unfold layered.
  destruct (overlay_value eo k) eqn:Ho; [intros _; by eapply overlay_value_written|].
  destruct (copy_value so k) eqn:Hc; [intros _; by eapply copy_value_written|done].
Qed.

(** One extension applied to the result of another, both calls quiet. *)
Lemma apply_over_result r (h : list object) f1 f2 e1 e2 b eo1 eo2 so :
  is_apply_fn h f1 (VRef e1) -> is_apply_fn h f2 (VRef e2) ->
  h !! e1 = Some eo1 -> h !! e2 = Some eo2 -> h !! b = Some so ->
  quiet h so eo1 -> data_only true eo2 ->
  (forall k, overlaid eo2 k -> chain_lets h (proto so) k) ->
  exists o1 o2,
    call_function r (VRef f1) (VRef b) h = Normal (VRef (length h)) (h ++ [o1])
    /\ call_function r (VRef f2) (VRef (length h)) (h ++ [o1])
       = Normal (VRef (S (length h))) (h ++ [o1; o2])
    /\ proto o1 = proto so /\ (forall k, own_prop o1 k = layered so eo1 k)
    /\ proto o2 = proto so /\ is_frozen o2 = true
    /\ forall k, own_prop o2 k =
         match overlay_value eo2 k with
         | Some v => Some (Data v false true false)
         | None => layered so eo1 k
         end.
Proof.
  intros Hf1 Hf2 He1 He2 Hb Hq Hd2 Hc2.
  destruct (apply_quiet r h f1 e1 b eo1 so Hf1 He1 Hb Hq)
    as (o1 & Hrun1 & Hp1 & Hfr1 & Hown1).
  assert (Hq2 : quiet (h ++ [o1]) o1 eo2).
  { split.
    - rewrite Hp1. apply Hq.
    - intros k d Hk _ _. rewrite Hown1 in Hk.
      destruct (layered_data so eo1 k d Hk) as [v ->]. eauto.
    - done.
    - intros k Hw. rewrite Hp1. apply chain_lets_grown.
      destruct Hw as [Hov|(d & Hk & _)]; [by apply Hc2|].
      rewrite Hown1 in Hk. eapply (quiet_chain _ _ _ Hq), layered_written; eauto. }
  assert (Hf2' : is_apply_fn (h ++ [o1]) f2 (VRef e2)).
  { destruct Hf2 as (fo & Hfo & Hc). exists fo. split; [|done].
    by apply lookup_app_l_Some. }
  destruct (apply_quiet r (h ++ [o1]) f2 e2 (length h) eo2 o1 Hf2')
    as (o2 & Hrun2 & Hp2 & Hfr2 & Hown2); [by apply lookup_app_l_Some| |done|].
  { apply lookup_result. }
  exists o1, o2. split; [done|]. split.
  { rewrite Hrun2, length_app, <- app_assoc. simpl. by rewrite Nat.add_1_r. }
  do 2 (split; [done|]). split; [congruence|]. split; [done|].
  intros k. rewrite Hown2. unfold layered at 1.
  destruct (overlay_value eo2 k); [done|].
  unfold copy_value. rewrite Hown1.
  destruct (layered so eo1 k) as [d|] eqn:Hl; [|done].
  by destruct (layered_data so eo1 k d Hl) as [v ->].
Qed.

(** X9, extensions compose.  When two packages extend in turn, the second
    applied to the result of the first, and no user code runs and no
    assignment is refused in either call, the final object has the
    prototype of [base] and, under every key, what the second map
    overlays, otherwise what the first result had; the first result is
    left as it was. *)
Theorem extenders_compose r (h : list object) f1 f2 e1 e2 b eo1 eo2 so :
  is_apply_fn h f1 (VRef e1) -> is_apply_fn h f2 (VRef e2) ->
  h !! e1 = Some eo1 -> h !! e2 = Some eo2 -> h !! b = Some so ->
  quiet h so eo1 -> data_only true eo2 ->
  (forall k, overlaid eo2 k -> chain_lets h (proto so) k) ->
  exists t1 o1 t2 o2,
    call_function r (VRef f1) (VRef b) h = Normal (VRef t1) (h ++ [o1])
    /\ call_function r (VRef f2) (VRef t1) (h ++ [o1])
       = Normal (VRef t2) (h ++ [o1; o2])
    /\ t1 <> t2
    /\ proto o2 = proto so /\ is_frozen o2 = true
    /\ forall k, own_prop o2 k =
         match overlay_value eo2 k with
         | Some v => Some (Data v false true false)
         | None => own_prop o1 k
         end.
Proof.
  intros Hf1 Hf2 He1 He2 Hb Hq Hd2 Hc2.
  destruct (apply_over_result r h f1 f2 e1 e2 b eo1 eo2 so)
    as (o1 & o2 & Hrun1 & Hrun2 & _ & Hown1 & Hp2 & Hfr2 & Hown2); try done.
  exists (length h), o1, (S (length h)), o2.
  do 2 (split; [done|]). split; [lia|]. do 2 (split; [done|]).
  intros k. by rewrite Hown2, Hown1.
Qed.

Lemma extenders_compose_witness :
  exists t1 o1 t2 o2,
    call_function Sample.rlm (VRef 10) (VRef 7) Sample.two_extenders
    = Normal (VRef t1) (Sample.two_extenders ++ [o1])
    /\ call_function Sample.rlm (VRef 12) (VRef t1) (Sample.two_extenders ++ [o1])
       = Normal (VRef t2) (Sample.two_extenders ++ [o1; o2])
    /\ own_prop o2 (KStr "custom") = Some (Data (VRef 6) false true false)
    /\ own_prop o2 (KStr "email") = Some (Data (VRef 4) false true false).
Proof.
  destruct (extenders_compose Sample.rlm Sample.two_extenders 10 12 8 9 7
              Sample.first_ext Sample.second_ext Sample.small_base)
    as (t1 & o1 & t2 & o2 & Hrun1 & Hrun2 & _ & _ & _ & Hown).
  - eexists. split; reflexivity.
  - eexists. split; reflexivity.
  - reflexivity.
  - reflexivity.
  - reflexivity.
  - apply quietb_sound. reflexivity.
  - apply data_onlyb_sound. reflexivity.
  - intros k (_ & d & Hk & _). apply chain_letsb_sound.
    apply lookup_key_Some_in in Hk. simpl in Hk.
    destruct Hk as [<-|[<-|[]]]; reflexivity.
  - exists t1, o1, t2, o2. split; [exact Hrun1|]. split; [exact Hrun2|].
    rewrite !Hown. split; reflexivity.
Defined.

(** X10, applying twice.  Applying an extension to its own result, when no
    user code runs and no assignment is refused, allocates another object
    with the same prototype and the same own properties: the second
    application changes nothing but the identity of the object. *)
Theorem reapplying_changes_nothing r (h : list object) f e b eo so :
  is_apply_fn h f (VRef e) ->
  h !! e = Some eo -> h !! b = Some so ->
  quiet h so eo ->
  exists t1 o1 t2 o2,
    call_function r (VRef f) (VRef b) h = Normal (VRef t1) (h ++ [o1])
    /\ call_function r (VRef f) (VRef t1) (h ++ [o1])
       = Normal (VRef t2) (h ++ [o1; o2])
    /\ t1 <> t2
    /\ proto o2 = proto o1
    /\ forall k, own_prop o2 k = own_prop o1 k.
Proof.
  intros Hf He Hb Hq.
  destruct (apply_over_result r h f f e e b eo eo so)
    as (o1 & o2 & Hrun1 & Hrun2 & Hp1 & Hown1 & Hp2 & _ & Hown2); try done.
  { apply Hq. }
  { intros k Hov. apply (quiet_chain _ _ _ Hq). by left. }
  exists (length h), o1, (S (length h)), o2.
  do 2 (split; [done|]). split; [lia|]. split; [congruence|].
  intros k. rewrite Hown2, Hown1. unfold layered.
  by destruct (overlay_value eo k).
Qed.

Lemma reapplying_changes_nothing_witness :
  exists t1 o1 t2 o2,
    call_function Sample.rlm (VRef 9) (VRef 7) Sample.plain
    = Normal (VRef t1) (Sample.plain ++ [o1])
    /\ call_function Sample.rlm (VRef 9) (VRef t1) (Sample.plain ++ [o1])
       = Normal (VRef t2) (Sample.plain ++ [o1; o2])
    /\ t1 <> t2
    /\ own_prop o2 (KStr "custom") = own_prop o1 (KStr "custom").
Proof.
  destruct (reapplying_changes_nothing Sample.rlm Sample.plain 9 8 7
              Sample.ext_obj Sample.base_obj)
    as (t1 & o1 & t2 & o2 & Hrun1 & Hrun2 & Hne & _ & Hown).
  - eexists. split; reflexivity.
  - reflexivity.
  - reflexivity.
  - apply quietb_sound. reflexivity.
  - exists t1, o1, t2, o2. split; [exact Hrun1|]. split; [exact Hrun2|].
    split; [exact Hne|apply Hown].
Defined.
